(** * DualShock 4 output-report driver ([src/core/Controller.hpp])

    A shallow embedding of the [DualShock4] class: the packed output
    packet, the constructor and the destructor, run in a small
    state-and-error monad over a heap of allocated blocks and a trace of
    the calls made to the C runtime and to hidapi. *)

From stdpp Require Import gmap list strings.
From Stdlib Require Import Ascii.

Local Open Scope Z_scope.

(** ** Pointers and protocol constants *)

Definition ptr := Z.
Definition NULL : ptr := 0.

Definition SONY_INTERACTIVE_ENTERTAINMENT_VENDOR_ID : Z := 1356.
Definition DUALSHOCK_4_CONTROLLER_PRO_ID : Z := 2508.

(** ** The packed structs

    [#pragma pack (1)]: the members lie one after the other without
    padding, so an offset is the sum of the sizes before it. *)

Inductive member :=
| flags | reserved_unk | Empty
| smallMotorPower | largeMotorPower
| redLed | greenLed | blueLed
| ledFlashOnTime | ledFlashOffTime
| padding.

#[global] Instance member_eq_dec : EqDecision member.
Proof. solve_decision. Defined.

Definition member_size (m : member) : nat :=
  match m with
  | padding => 21
  | _ => 1
  end.

Definition dualshock4_hid_out_payload : list member :=
  [flags; reserved_unk; Empty; smallMotorPower; largeMotorPower;
   redLed; greenLed; blueLed; ledFlashOnTime; ledFlashOffTime; padding].

Definition sizeof_members (ms : list member) : nat :=
  foldr (λ m n, (member_size m + n)%nat) 0%nat ms.

Fixpoint offset_in (ms : list member) (m : member) : nat :=
  match ms with
  | [] => 0
  | m' :: ms' => if decide (m' = m) then 0
                 else (member_size m' + offset_in ms' m)%nat
  end.

Definition sizeof_payload : nat := sizeof_members dualshock4_hid_out_payload.

(** [dualshock4_hid_out_packet]: the report id, then the payload. *)
Definition off_reportId : nat := 0.
Definition off_payload : nat := 1.
Definition sizeof_packet : nat := (1 + sizeof_payload)%nat.

(** Offset of a payload member inside the packet. *)
Definition off (m : member) : nat :=
  (off_payload + offset_in dualshock4_hid_out_payload m)%nat.

(** ** The world: heap blocks and the trace of external calls *)

Definition wstring := list Z.

Inductive event :=
| Cout (s : string)
| Abort
| HidOpen (vid pid : Z) (serial : wstring) (ret : ptr)
| HidError (d : ptr)
| Calloc (n size : nat) (ret : ptr)
| HidSendOutputReport (d : ptr) (data : ptr) (mem : list Z) (len : nat) (ret : Z)
| Free (p : ptr)
| HidClose (d : ptr).

#[global] Instance event_eq_dec : EqDecision event.
Proof. solve_decision. Defined.

Record world := World { heap : gmap Z (list Z); trace : list event }.

(** The data model of the platform decides [sizeof] of a data pointer. *)
Inductive data_model := ILP32 | LP64.

Definition sizeof_pointer (dm : data_model) : nat :=
  match dm with
  | ILP32 => 4
  | LP64 => 8
  end.

(** What the environment answers: the device [hid_open] returns, the
    address [calloc] returns (NULL when it fails), the status of a write
    (which may depend on what happened before), and the platform. *)
Record env := Env {
  hid_open_ret : Z → Z → wstring → ptr;
  calloc_ret : ptr;
  hid_send_ret : list event → Z;
  platform : data_model
}.

(** ** The monad *)

(** How an execution ends: it completes; it calls [std::abort]; it
    dereferences the null pointer ([Fault]); or it goes outside a live
    block, through a dangling pointer or past the end ([Undefined]). The
    last is undefined behaviour: the world kept is the last defined one,
    and nothing is said of what the machine does from there. *)
Inductive outcome (A : Type) :=
| Done (a : A) (w : world)
| Aborted (w : world)
| Fault (w : world)
| Undefined (w : world).
Arguments Done {A} a w.
Arguments Aborted {A} w.
Arguments Fault {A} w.
Arguments Undefined {A} w.

Definition M (A : Type) : Type := world → outcome A.

#[global] Instance M_ret : MRet M := λ A a w, Done a w.
#[global] Instance M_bind : MBind M := λ A B f c w,
  match c w with
  | Done a w' => f a w'
  | Aborted w' => Aborted w'
  | Fault w' => Fault w'
  | Undefined w' => Undefined w'
  end.

Definition emit (e : event) : M unit :=
  λ w, Done tt (World (heap w) (trace w ++ [e])).

(** [std::cout << s << std::endl] *)
Definition cout (s : string) : M unit := emit (Cout s).

(** [std::abort()] *)
Definition abort {A} : M A :=
  λ w, Aborted (World (heap w) (trace w ++ [Abort])).

(** The block a pointer refers to; none for NULL or a dangling pointer. *)
Definition block_at (hp : gmap Z (list Z)) (p : ptr) : option (list Z) :=
  if decide (p = NULL) then None else hp !! p.

(** Access to one [unsigned char] of a block through a pointer: a fault
    on the null pointer, undefined when the pointer is not a live block
    or the offset is outside it. *)
Definition load (p : ptr) (i : nat) : M Z :=
  λ w, if decide (p = NULL) then Fault w
       else match block_at (heap w) p ≫= (.!! i) with
            | Some v => Done v w
            | None => Undefined w
            end.

Definition store (p : ptr) (i : nat) (v : Z) : M unit :=
  λ w, if decide (p = NULL) then Fault w
       else match block_at (heap w) p with
            | Some b =>
                if decide (i < length b)%nat
                then Done tt (World (<[p := <[i := v `mod` 256]> b]> (heap w))
                                    (trace w))
                else Undefined w
            | None => Undefined w
            end.

(** [std::memset(p + i, c, n)] *)
Definition memset (p : ptr) (i : nat) (c : Z) (n : nat) : M unit :=
  λ w, if decide (p = NULL) then Fault w
       else match block_at (heap w) p with
            | Some b =>
                if decide (i + n ≤ length b)%nat
                then Done tt (World (<[p := take i b ++ replicate n (c `mod` 256)
                                               ++ drop (i + n) b]> (heap w))
                                    (trace w))
                else Undefined w
            | None => Undefined w
            end.

(** [std::calloc(n, size)]: NULL on failure, otherwise a zeroed block. *)
Definition calloc (E : env) (n size : nat) : M ptr :=
  λ w, let p := calloc_ret E in
       if decide (p = NULL)
       then Done NULL (World (heap w) (trace w ++ [Calloc n size NULL]))
       else Done p (World (<[p := replicate (n * size) 0]> (heap w))
                          (trace w ++ [Calloc n size p])).

(** [std::free(p)]: nothing for NULL, undefined for a pointer that is
    not a live block. *)
Definition free (p : ptr) : M unit :=
  λ w, if decide (p = NULL)
       then Done tt (World (heap w) (trace w ++ [Free p]))
       else match block_at (heap w) p with
            | Some _ => Done tt (World (delete p (heap w)) (trace w ++ [Free p]))
            | None => Undefined w
            end.

Definition hid_open (E : env) (vid pid : Z) (serial : wstring) : M ptr :=
  λ w, let d := hid_open_ret E vid pid serial in
       Done d (World (heap w) (trace w ++ [HidOpen vid pid serial d])).

Definition hid_error (d : ptr) : M unit := emit (HidError d).

Definition hid_close (d : ptr) : M unit := emit (HidClose d).

(** [hid_send_output_report(dev, data, length)] reads [length] bytes at
    [data]; the event keeps the block as it is at the call. *)
Definition hid_send_output_report (E : env) (d : ptr) (data : ptr) (len : nat) : M Z :=
  λ w, if decide (data = NULL) then Fault w
       else match block_at (heap w) data with
            | Some b =>
                if decide (len ≤ length b)%nat
                then let r := hid_send_ret E (trace w) in
                     Done r (World (heap w)
                                   (trace w ++ [HidSendOutputReport d data b len r]))
                else Undefined w
            | None => Undefined w
            end.

(** ** The class *)

(** [unsigned short]: the values it holds, and the conversion an
    assignment makes. *)
Definition USHRT_MAX : Z := 65535.

Definition is_ushort (z : Z) : bool := bool_decide (0 ≤ z ≤ USHRT_MAX).

Definition ushort (z : Z) : Z := z `mod` (USHRT_MAX + 1).

(** The members of [hid_device_info] the constructor reads. The three
    numbers are [unsigned short] members: each holds a value from 0 to
    65535, which is also what a comparison sees after integer promotion. *)
Record hid_device_info := {
  vendor_id : Z;
  product_id : Z;
  serial_number : wstring;
  usage : Z;
  in_range : is_ushort vendor_id && is_ushort product_id && is_ushort usage
}.

Record DualShock4 := {
  dev : ptr;
  isUsb : Z;
  controllerOutPacket : ptr
}.

Definition DualShock4_ctor (E : env) (openDeviceInfo : option hid_device_info)
  : M DualShock4 :=
  match openDeviceInfo with
  | None =>
      cout "The given openning device infor pointer is NULL";; abort
  | Some info =>
      if decide (product_id info ≠ DUALSHOCK_4_CONTROLLER_PRO_ID)
      then cout "Controller type mismathced";; abort
      else
        d ← hid_open E (vendor_id info) (product_id info) (serial_number info);
        if decide (d = NULL)
        then hid_error d;; abort
        else
          let usb := if decide (usage info = -1) then 0 else 1 in
          p ← calloc E 1 sizeof_packet;
          (if decide (usb = 1)
           then store p off_reportId 0x05
           else store p off_reportId 0x11);;
          memset p off_payload 0x00 sizeof_payload;;
          mret {| dev := d; isUsb := usb; controllerOutPacket := p |}
  end.

Definition DualShock4_dtor (E : env) (this : DualShock4) : M unit :=
  store (controllerOutPacket this) (off reserved_unk) 0x01;;
  hid_send_output_report E (dev this) (controllerOutPacket this)
                         (sizeof_pointer (platform E));;
  free (controllerOutPacket this);;
  cout "test1";;
  (if decide (dev this ≠ NULL) then hid_close (dev this) else mret tt);;
  cout "test1".


(** ** The builder and [send]

    [Controller.hpp] only declares them; their bodies are not in the
    sources at hand. *)

(** Modelled from the spec: the three bits of [flags] that select the
    rumble, LED colour and LED blink subsystems. The header gives no
    values for them, so they are parameters. *)
Record flag_masks := FlagMasks {
  RUMBLE : Z;
  LED : Z;
  BLINK : Z
}.

Module Builder.

Section WithMasks.
Variable E : env.
Variable F : flag_masks.

(** Modelled from the spec: how an enable call toggles its flag bit on,
    [flags |= mask] on the staging packet, the other bits kept. *)
Definition or_flags (this : DualShock4) (mask : Z) : M DualShock4 :=
  f ← load (controllerOutPacket this) (off flags);
  store (controllerOutPacket this) (off flags) (Z.lor f mask);;
  mret this.

(** Modelled from the spec: the body of [DualShock4::enableRumble],
    which sets the rumble bit of [flags] and writes nothing else. *)
Definition enableRumble (this : DualShock4) : M DualShock4 :=
  or_flags this (RUMBLE F).

(** Modelled from the spec: the body of [DualShock4::enableLED],
    which sets the LED colour bit of [flags] and writes nothing else. *)
Definition enableLED (this : DualShock4) : M DualShock4 :=
  or_flags this (LED F).

(** Modelled from the spec: the body of [DualShock4::enableLEDBlink],
    which sets the LED blink bit of [flags] and writes nothing else. *)
Definition enableLEDBlink (this : DualShock4) : M DualShock4 :=
  or_flags this (BLINK F).

(** Modelled from the spec: the body of [DualShock4::setRumBle], which
    writes the two motor magnitudes and no flag. *)
Definition setRumBle (this : DualShock4) (smallRumbleLevel bigRumbleLevel : Z)
  : M DualShock4 :=
  store (controllerOutPacket this) (off smallMotorPower) smallRumbleLevel;;
  store (controllerOutPacket this) (off largeMotorPower) bigRumbleLevel;;
  mret this.

(** Modelled from the spec: the body of [DualShock4::setLEDColor],
    which writes the three colour channels. *)
Definition setLEDColor (this : DualShock4) (r g b : Z) : M DualShock4 :=
  store (controllerOutPacket this) (off redLed) r;;
  store (controllerOutPacket this) (off greenLed) g;;
  store (controllerOutPacket this) (off blueLed) b;;
  mret this.

(** Modelled from the spec: the body of [DualShock4::setLEDOnPeriod],
    which writes the blink on-duration. *)
Definition setLEDOnPeriod (this : DualShock4) (period : Z) : M DualShock4 :=
  store (controllerOutPacket this) (off ledFlashOnTime) period;;
  mret this.

(** Modelled from the spec: the body of [DualShock4::setLEDOffPeriod],
    which writes the blink off-duration. *)
Definition setLEDOffPeriod (this : DualShock4) (period : Z) : M DualShock4 :=
  store (controllerOutPacket this) (off ledFlashOffTime) period;;
  mret this.

(** Modelled from the spec: the body of [DualShock4::send(void)], one
    write of the report id followed by the whole payload. *)
Definition send (this : DualShock4) : M DualShock4 :=
  hid_send_output_report E (dev this) (controllerOutPacket this) sizeof_packet;;
  mret this.

(** A call of the fluent interface, and a chain of them. *)
Inductive call :=
| EnableRumble | EnableLED | EnableLEDBlink
| SetRumBle (smallRumbleLevel bigRumbleLevel : Z)
| SetLEDColor (r g b : Z)
| SetLEDOnPeriod (period : Z)
| SetLEDOffPeriod (period : Z)
| Send.

Definition run_call (c : call) (this : DualShock4) : M DualShock4 :=
  match c with
  | EnableRumble => enableRumble this
  | EnableLED => enableLED this
  | EnableLEDBlink => enableLEDBlink this
  | SetRumBle s b => setRumBle this s b
  | SetLEDColor r g b => setLEDColor this r g b
  | SetLEDOnPeriod t => setLEDOnPeriod this t
  | SetLEDOffPeriod t => setLEDOffPeriod this t
  | Send => send this
  end.

Fixpoint run_calls (cs : list call) (this : DualShock4) : M DualShock4 :=
  match cs with
  | [] => mret this
  | c :: cs' => this' ← run_call c this; run_calls cs' this'
  end.

(** The members a call writes. *)
Definition written (c : call) : list member :=
  match c with
  | EnableRumble | EnableLED | EnableLEDBlink => [flags]
  | SetRumBle _ _ => [smallMotorPower; largeMotorPower]
  | SetLEDColor _ _ _ => [redLed; greenLed; blueLed]
  | SetLEDOnPeriod _ => [ledFlashOnTime]
  | SetLEDOffPeriod _ => [ledFlashOffTime]
  | Send => []
  end.

(** The mask an enable call sets. *)
Definition enabled (c : call) : option Z :=
  match c with
  | EnableRumble => Some (RUMBLE F)
  | EnableLED => Some (LED F)
  | EnableLEDBlink => Some (BLINK F)
  | _ => None
  end.

(** Closed forms, used in the proofs: what a call does to the packet
    block and the events it adds ([run_call_live] shows that [run_call]
    computes them). *)
Definition or_flags_block (mask : Z) (b : list Z) : list Z :=
  <[off flags := Z.lor (default 0 (b !! off flags)) mask `mod` 256]> b.

Definition call_block (c : call) (b : list Z) : list Z :=
  match c with
  | EnableRumble => or_flags_block (RUMBLE F) b
  | EnableLED => or_flags_block (LED F) b
  | EnableLEDBlink => or_flags_block (BLINK F) b
  | SetRumBle s l =>
      <[off largeMotorPower := l `mod` 256]>
        (<[off smallMotorPower := s `mod` 256]> b)
  | SetLEDColor r g bl =>
      <[off blueLed := bl `mod` 256]>
        (<[off greenLed := g `mod` 256]> (<[off redLed := r `mod` 256]> b))
  | SetLEDOnPeriod t => <[off ledFlashOnTime := t `mod` 256]> b
  | SetLEDOffPeriod t => <[off ledFlashOffTime := t `mod` 256]> b
  | Send => b
  end.

Definition call_events (c : call) (h : DualShock4) (b : list Z) (tr : list event)
  : list event :=
  match c with
  | Send => [HidSendOutputReport (dev h) (controllerOutPacket h) b sizeof_packet
               (hid_send_ret E tr)]
  | _ => []
  end.

Fixpoint calls_block (cs : list call) (b : list Z) : list Z :=
  match cs with
  | [] => b
  | c :: cs' => calls_block cs' (call_block c b)
  end.

Fixpoint calls_events (cs : list call) (h : DualShock4) (b : list Z)
  (tr : list event) : list event :=
  match cs with
  | [] => []
  | c :: cs' =>
      call_events c h b tr
      ++ calls_events cs' h (call_block c b) (tr ++ call_events c h b tr)
  end.

End WithMasks.

End Builder.

(** The life of a handle: construction, a chain of builder calls, and
    optionally the destructor. *)
Definition session (E : env) (F : flag_masks) (oi : option hid_device_info)
  (cs : list Builder.call) : M DualShock4 :=
  h ← DualShock4_ctor E oi; Builder.run_calls E F cs h.

Definition lifetime (E : env) (F : flag_masks) (oi : option hid_device_info)
  (cs : list Builder.call) : M unit :=
  h ← session E F oi cs; DualShock4_dtor E h.

(** ** Observations *)

(** The bytes of a member in a packet block. *)
Definition member_bytes (m : member) (b : list Z) : list Z :=
  take (member_size m) (drop (off m) b).

Definition payload_of (b : list Z) : list Z :=
  take sizeof_payload (drop off_payload b).

(** The canonical reset payload: every byte zero but the reset marker. *)
Definition reset_payload : list Z :=
  <[offset_in dualshock4_hid_out_payload reserved_unk := 0x01]>
    (replicate sizeof_payload 0).

(** The bytes a write transmits and the staging packet it was made from. *)
Definition transmitted (e : event) : option (list Z) :=
  match e with
  | HidSendOutputReport _ _ mem len _ => Some (take len mem)
  | _ => None
  end.

Definition staged (e : event) : option (list Z) :=
  match e with
  | HidSendOutputReport _ _ mem _ _ => Some mem
  | _ => None
  end.

Definition is_open (e : event) : bool :=
  match e with
  | HidOpen _ _ _ _ => true
  | _ => false
  end.

Definition trace_of {A} (o : outcome A) : list event :=
  match o with
  | Done _ w | Aborted w | Fault w | Undefined w => trace w
  end.

Definition is_done {A} (o : outcome A) : bool :=
  match o with Done _ _ => true | _ => false end.

Definition is_fault {A} (o : outcome A) : bool :=
  match o with Fault _ => true | _ => false end.

Definition is_aborted {A} (o : outcome A) : bool :=
  match o with Aborted _ => true | _ => false end.

Definition is_undefined {A} (o : outcome A) : bool :=
  match o with Undefined _ => true | _ => false end.

(** The events an execution started in [w] has added. *)
Definition events_since {A} (w : world) (o : outcome A) : list event :=
  drop (length (trace w)) (trace_of o).

(** The class invariant: an open device and a live packet of the right size. *)
Definition live (w : world) (h : DualShock4) : Prop :=
  dev h ≠ NULL ∧
  ∃ b, block_at (heap w) (controllerOutPacket h) = Some b ∧
       length b = sizeof_packet.

(** The staging packet of a handle and its report id. *)
Definition packet (w : world) (h : DualShock4) : option (list Z) :=
  block_at (heap w) (controllerOutPacket h).

Definition report_id (w : world) (h : DualShock4) : option Z :=
  packet w h ≫= (.!! off_reportId).

(** Closed forms, used in the proofs: the packet as the constructor
    leaves it, the handle it returns and the events it adds when it
    completes ([ctor_run] shows that the constructor computes them). *)
Definition fresh_packet (info : hid_device_info) : list Z :=
  (if decide (usage info = -1) then 0x11 else 0x05) :: replicate sizeof_payload 0.

Definition ctor_handle (E : env) (info : hid_device_info) : DualShock4 :=
  {| dev := hid_open_ret E (vendor_id info) (product_id info) (serial_number info);
     isUsb := if decide (usage info = -1) then 0 else 1;
     controllerOutPacket := calloc_ret E |}.

Definition ctor_events (E : env) (info : hid_device_info) : list event :=
  [HidOpen (vendor_id info) (product_id info) (serial_number info)
           (hid_open_ret E (vendor_id info) (product_id info) (serial_number info));
   Calloc 1 sizeof_packet (calloc_ret E)].

(** The events of the destructor on a handle whose packet block is [b]
    ([dtor_run] shows that the destructor adds them). *)
Definition dtor_events (E : env) (h : DualShock4) (b : list Z) (tr : list event)
  : list event :=
  [HidSendOutputReport (dev h) (controllerOutPacket h)
     (<[off reserved_unk := 0x01]> b) (sizeof_pointer (platform E))
     (hid_send_ret E tr);
   Free (controllerOutPacket h);
   Cout "test1"]
  ++ (if decide (dev h ≠ NULL) then [HidClose (dev h)] else [])
  ++ [Cout "test1"].

(** The payloads staged at the writes the destructor makes on [h]. *)
Definition teardown_payloads (E : env) (h : DualShock4) (w : world)
  : list (list Z) :=
  payload_of <$> omap staged (events_since w (DualShock4_dtor E h w)).

(** ** Concrete inputs *)

(** A 64-bit host on which the device opens, the allocation succeeds
    and every write fails. *)
Definition host64 : env := Env (λ _ _ _, 77) 4096 (λ _, -1) LP64.

(** The same host when [calloc] fails. *)
Definition host64_oom : env := Env (λ _ _ _, 77) NULL (λ _, -1) LP64.

Definition masks_124 : flag_masks := FlagMasks 0x01 0x02 0x04.

Definition pad_usb : hid_device_info :=
  {| vendor_id := 1356; product_id := 2508; serial_number := []; usage := 1;
     in_range := I |}.

(** A pad whose lister, having no usage to report, has assigned -1 to
    the member: what the member holds is 65535. *)
Definition pad_unset : hid_device_info :=
  {| vendor_id := 1356; product_id := 2508; serial_number := [];
     usage := ushort (-1); in_range := I |}.

Definition pad_other_vendor : hid_device_info :=
  {| vendor_id := 1118; product_id := 2508; serial_number := []; usage := 1;
     in_range := I |}.

Definition pad_other_product : hid_device_info :=
  {| vendor_id := 1356; product_id := 1476; serial_number := []; usage := 1;
     in_range := I |}.

Definition boot : world := World ∅ [].


(** * The chess console ([RunChessConsole])

    The terminal loop around the chess library. The library itself
    ([chess.hpp]) is not part of the repository: the console is modelled
    over an interface with the operations it calls. Standard input is the
    list of the lines [std::getline] will return; the end of the list is
    the end of the file. *)

Module Console.

Inductive Color := WHITE | BLACK.

Inductive GameResult := WIN | LOSE | DRAW | NONE.

Inductive GameResultReason :=
| CHECKMATE | STALEMATE | INSUFFICIENT_MATERIAL
| FIFTY_MOVE_RULE | THREEFOLD_REPETITION | NO_REASON.

#[global] Instance Color_eq_dec : EqDecision Color.
Proof. solve_decision. Defined.

#[global] Instance GameResult_eq_dec : EqDecision GameResult.
Proof. solve_decision. Defined.

(** What the console asks of the library. [setFen] returns its status
    and the board as it leaves it; [parseSan] and [moveToSan] give [None]
    where the library throws. *)
Class Chess := {
  Board : Type;
  Move : Type;
  Move_eq_dec :: EqDecision Move;
  start_position : Board;
  NO_MOVE : Move;
  show_board : Board → string;
  getFen : Board → string;
  sideToMove : Board → Color;
  chess960 : Board → bool;
  setFen : Board → list ascii → bool * Board;
  isUciMove : list ascii → bool;
  uciToMove : Board → list ascii → Move;
  parseSan : Board → list ascii → option Move;
  legalmoves : Board → list Move;
  makeMove : Board → Move → Board;
  unmakeMove : Board → Move → Board;
  moveToSan : Board → Move → option string;
  moveToUci : Move → bool → string;
  isGameOver : Board → GameResultReason * GameResult
}.

(** What goes to [std::cout]. *)
Inductive out :=
| Put (s : string)
| Endl
| Flush.

(** A string literal as a line. *)
Definition lit (s : string) : list ascii := String.list_ascii_of_string s.

(** [std::isspace] in the C locale: the space and the characters from
    horizontal tab to carriage return. *)
Definition isspace (c : ascii) : bool :=
  bool_decide (nat_of_ascii c = 32 ∨ 9 ≤ nat_of_ascii c ≤ 13)%nat.

(** [while (!line.empty() && isspace(line.front())) line.erase(line.begin())] *)
Fixpoint trim_front (line : list ascii) : list ascii :=
  match line with
  | [] => []
  | c :: rest => if isspace c then trim_front rest else line
  end.

(** [while (!line.empty() && isspace(line.back())) line.pop_back()], with
    a bound on the number of rounds; the length of the line is enough. *)
Fixpoint pop_spaces (rounds : nat) (line : list ascii) : list ascii :=
  match rounds with
  | O => line
  | S rounds' =>
      match last line with
      | Some c => if isspace c then pop_spaces rounds' (removelast line) else line
      | None => line
      end
  end.

Definition trim_back (line : list ascii) : list ascii :=
  pop_spaces (length line) line.

Definition trim (line : list ascii) : list ascii :=
  trim_back (trim_front line).

(** [line.rfind("fen ", 0) == 0 && line.size() > 4] *)
Definition is_fen_command (line : list ascii) : bool :=
  bool_decide (take 4 line = lit "fen ") && bool_decide (4 < length line)%nat.

Inductive next := Continue | Break.

Section WithChess.
Context {chess : Chess}.

Record console := Console {
  board : Board;
  history : list Move
}.

Definition print_board (st : console) : list out :=
  [Put (show_board (board st)); Put "FEN: "; Put (getFen (board st)); Endl].

(** The head of the loop body, up to the read. *)
Definition prompt (st : console) : list out :=
  print_board st ++
  [Put (if decide (sideToMove (board st) = WHITE) then "White" else "Black");
   Put " to move."; Endl;
   Put "Enter move (UCI or SAN), 'fen <FEN>', 'undo', or 'quit': "; Flush].

(** The search of the move among the legal ones. *)
Fixpoint is_legal_in (legalMoves : list Move) (userMove : Move) : bool :=
  match legalMoves with
  | [] => false
  | m :: ms => if decide (m = userMove) then true else is_legal_in ms userMove
  end.

(** UCI first, then SAN; a SAN parse error gives [NO_MOVE]. *)
Definition parse_move (b : Board) (line : list ascii) : Move :=
  if isUciMove line then uciToMove b line
  else match parseSan b line with
       | Some m => m
       | None => NO_MOVE
       end.

(** The report of the move. The operands of [<<] are evaluated from left
    to right, so the label is out when [moveToSan] throws and is written
    again by the handler. *)
Definition played_text (b : Board) (m : Move) : list out :=
  match moveToSan b m with
  | Some san => [Put "Played: "; Put san; Endl]
  | None => [Put "Played: "; Put "Played: "; Put (moveToUci m (chess960 b)); Endl]
  end.

Definition reason_text (reason : GameResultReason) : string :=
  match reason with
  | CHECKMATE => "checkmate"
  | STALEMATE => "stalemate"
  | INSUFFICIENT_MATERIAL => "insufficient material"
  | FIFTY_MOVE_RULE => "50-move rule"
  | THREEFOLD_REPETITION => "threefold repetition"
  | NO_REASON => "unknown"
  end.

Definition game_over_text (b : Board) (reason : GameResultReason)
  (result : GameResult) : list out :=
  [Put "Game over: "] ++
  (if decide (result = DRAW) then [Put "Draw"]
   else if decide (result = LOSE)
        then [Put (if decide (sideToMove b = WHITE) then "Black" else "White");
              Put " wins"]
        else []) ++
  [Put " ("; Put (reason_text reason); Put ")."; Endl].

(** The loop body after the read of [line0]: whether the loop goes on,
    the board and the history it leaves, and what it prints. *)
Definition handle (st : console) (line0 : list ascii)
  : next * console * list out :=
  let line := trim line0 in
  if decide (line = []) then (Continue, st, [])
  else if decide (line = lit "quit" ∨ line = lit "exit")
  then (Break, st, [Put "Goodbye."; Endl])
  else if decide (line = lit "undo") then
    match last (history st) with
    | Some m =>
        (Continue,
         {| board := unmakeMove (board st) m;
            history := removelast (history st) |}, [])
    | None => (Continue, st, [Put "No moves to undo."; Endl])
    end
  else if is_fen_command line then
    let fen := drop 4 line in
    let '(ok, b') := setFen (board st) fen in
    if ok
    then (Continue, {| board := b'; history := [] |},
          [Put "Position set."; Endl])
    else (Continue, {| board := b'; history := history st |},
          [Put "Invalid FEN."; Endl])
  else
    let userMove := parse_move (board st) line in
    if decide (userMove = NO_MOVE)
    then (Continue, st,
          [Put "Invalid move format. Use UCI (e2e4) or SAN (e4, Nf3, O-O).";
           Endl])
    else if negb (is_legal_in (legalmoves (board st)) userMove)
    then (Continue, st, [Put "Illegal move in the current position."; Endl])
    else
      let b' := makeMove (board st) userMove in
      let st' := {| board := b'; history := history st ++ [userMove] |} in
      let '(reason, result) := isGameOver b' in
      if decide (result ≠ NONE)
      then (Break, st', played_text b' userMove ++ game_over_text b' reason result)
      else (Continue, st', played_text b' userMove).

(** The loop: the last state, what was printed, and the lines left
    unread when it stops. *)
Fixpoint loop (st : console) (input : list (list ascii))
  : console * list out * list (list ascii) :=
  match input with
  | [] => (st, prompt st, [])
  | line :: rest =>
      match handle st line with
      | (Break, st', o) => (st', prompt st ++ o, rest)
      | (Continue, st', o) =>
          let '(final, o', unread) := loop st' rest in
          (final, prompt st ++ o ++ o', unread)
      end
  end.

Definition banner : list out :=
  [Put "Simple Chess Console (UCI or SAN). Type 'quit' to exit."; Endl;
   Put "Examples: e2e4, Nf3, O-O, e7e8q, fen rnbqkbnr/pp1ppppp/8/2p5/8/8/PPPPPPPP/RNBQKBNR w KQkq c6 0 2";
   Endl].

Definition RunChessConsole (input : list (list ascii))
  : console * list out * list (list ascii) :=
  let '(final, o, unread) := loop (Console start_position []) input in
  (final, banner ++ o, unread).

(** The board is the history replayed on some position. *)
Definition in_step (st : console) : Prop :=
  ∃ base, board st = foldl makeMove base (history st).

End WithChess.

(** A small library to run the console on: a board is the list of the
    moves made, the moves are numbers, 1 to 3 are legal, and the game is
    lost after three moves. *)
Definition toy : Chess := {|
  Board := list nat;
  Move := nat;
  start_position := [];
  NO_MOVE := 0%nat;
  show_board := λ _, "board";
  getFen := λ _, "fen";
  sideToMove := λ b, if Nat.even (length b) then WHITE else BLACK;
  chess960 := λ _, false;
  setFen := λ b fen, if decide (fen = lit "start") then (true, []) else (false, b);
  isUciMove := λ line, bool_decide (length line = 4%nat);
  uciToMove := λ _ line, length (filter (λ c, c = "a"%char) line);
  parseSan := λ _ line, if decide (line = lit "e4") then Some 1%nat else None;
  legalmoves := λ _, [1; 2; 3]%nat;
  makeMove := λ b m, m :: b;
  unmakeMove := λ b _, tail b;
  moveToSan := λ _ _, Some "san";
  moveToUci := λ _ _, "uci";
  isGameOver := λ b, if decide (3 ≤ length b)%nat then (CHECKMATE, LOSE)
                     else (NO_REASON, NONE)
|}.

Definition toy_console (b h : list nat) : @console toy := @Console toy b h.

End Console.

(** * Further observations on the driver *)

Definition is_calloc (e : event) : bool :=
  match e with
  | Calloc _ _ _ => true
  | _ => false
  end.

Definition is_free (e : event) : bool :=
  match e with
  | Free _ => true
  | _ => false
  end.

Definition is_close (e : event) : bool :=
  match e with
  | HidClose _ => true
  | _ => false
  end.

(** The calls to the runtime and to hidapi, the console messages left out. *)
Definition is_call (e : event) : bool :=
  match e with
  | Cout _ => false
  | _ => true
  end.


(** Construction followed at once by destruction. *)
Definition scoped (E : env) (oi : option hid_device_info) : M unit :=
  h ← DualShock4_ctor E oi; DualShock4_dtor E h.
(** * Proofs *)

(** ** Running the primitives *)

Lemma bind_run {A B} (c : M A) (k : A → M B) (w : world) :
  (c ≫= k) w = match c w with
               | Done a w' => k a w'
               | Aborted w' => Aborted w'
               | Fault w' => Fault w'
               | Undefined w' => Undefined w'
               end.
Proof. reflexivity. Qed.

Lemma block_at_null hp : block_at hp NULL = None.
Proof. reflexivity. Qed.

Lemma block_at_insert hp p b : p ≠ NULL → block_at (<[p := b]> hp) p = Some b.
Proof.
  intros Hp. unfold block_at. destruct (decide (p = NULL)); [done |].
  apply lookup_insert_eq.
Qed.

Lemma block_at_Some hp p b : block_at hp p = Some b → p ≠ NULL ∧ hp !! p = Some b.
Proof. unfold block_at. by destruct (decide (p = NULL)). Qed.

Lemma store_run p i v hp tr b :
  block_at hp p = Some b → (i < length b)%nat →
  store p i v (World hp tr)
  = Done tt (World (<[p := <[i := v `mod` 256]> b]> hp) tr).
Proof.
  intros Hp Hi. pose proof (block_at_Some _ _ _ Hp) as [Hn _].
  unfold store. simpl. destruct (decide (p = NULL)); [done |]. rewrite Hp.
  destruct (decide (i < length b)%nat); [done | lia].
Qed.

Lemma load_run p i hp tr b v :
  block_at hp p = Some b → b !! i = Some v →
  load p i (World hp tr) = Done v (World hp tr).
Proof.
  intros Hp Hi. pose proof (block_at_Some _ _ _ Hp) as [Hn _].
  unfold load. simpl. destruct (decide (p = NULL)); [done |].
  rewrite Hp. simpl. by rewrite Hi.
Qed.

Lemma memset_run p i c n hp tr b :
  block_at hp p = Some b → (i + n ≤ length b)%nat →
  memset p i c n (World hp tr)
  = Done tt (World (<[p := take i b ++ replicate n (c `mod` 256)
                                 ++ drop (i + n) b]> hp) tr).
Proof.
  intros Hp Hi. pose proof (block_at_Some _ _ _ Hp) as [Hn _].
  unfold memset. simpl. destruct (decide (p = NULL)); [done |]. rewrite Hp.
  destruct (decide (i + n ≤ length b)%nat); [done | lia].
Qed.

Lemma send_run E d p len hp tr b :
  block_at hp p = Some b → (len ≤ length b)%nat →
  hid_send_output_report E d p len (World hp tr)
  = Done (hid_send_ret E tr)
         (World hp (tr ++ [HidSendOutputReport d p b len (hid_send_ret E tr)])).
Proof.
  intros Hp Hl. pose proof (block_at_Some _ _ _ Hp) as [Hn _].
  unfold hid_send_output_report. simpl.
  destruct (decide (p = NULL)); [done |]. rewrite Hp.
  destruct (decide (len ≤ length b)%nat); [done | lia].
Qed.

Lemma free_run p hp tr b :
  block_at hp p = Some b →
  free p (World hp tr) = Done tt (World (delete p hp) (tr ++ [Free p])).
Proof.
  intros Hp. unfold free. simpl. rewrite Hp.
  apply block_at_Some in Hp as [Hn _].
  by destruct (decide (p = NULL)).
Qed.

(** ** The constructor *)

Lemma ctor_run E info w :
  product_id info = DUALSHOCK_4_CONTROLLER_PRO_ID →
  hid_open_ret E (vendor_id info) (product_id info) (serial_number info) ≠ NULL →
  calloc_ret E ≠ NULL →
  DualShock4_ctor E (Some info) w
  = Done (ctor_handle E info)
         (World (<[calloc_ret E := fresh_packet info]> (heap w))
                (trace w ++ ctor_events E info)).
Proof.
  intros Hpid Hdev Hmem. destruct w as [hp tr].
  unfold DualShock4_ctor.
  destruct (decide (product_id info ≠ _)) as [|_]; [done |].
  rewrite bind_run. unfold hid_open. cbn [heap trace].
  destruct (decide (_ = NULL)) as [|_]; [done |].
  rewrite bind_run. unfold calloc. cbn [heap trace].
  destruct (decide (calloc_ret E = NULL)) as [|_]; [done |].
  unfold fresh_packet, ctor_handle, ctor_events.
  destruct (decide (usage info = -1)).
  - destruct (decide (0 = 1)) as [|_]; [done |].
    rewrite bind_run.
    erewrite store_run; [| by apply block_at_insert | vm_compute; lia].
    rewrite bind_run.
    erewrite memset_run; [| by apply block_at_insert | vm_compute; lia].
    rewrite !insert_insert_eq, <- app_assoc. reflexivity.
  - destruct (decide (1 = 1)) as [_|]; [| done].
    rewrite bind_run.
    erewrite store_run; [| by apply block_at_insert | vm_compute; lia].
    rewrite bind_run.
    erewrite memset_run; [| by apply block_at_insert | vm_compute; lia].
    rewrite !insert_insert_eq, <- app_assoc. reflexivity.
Qed.

(** Without a block the first write through the packet pointer faults:
    nothing between [calloc] and that write looks at the pointer. *)
Lemma ctor_alloc_fail E info w :
  product_id info = DUALSHOCK_4_CONTROLLER_PRO_ID →
  hid_open_ret E (vendor_id info) (product_id info) (serial_number info) ≠ NULL →
  calloc_ret E = NULL →
  DualShock4_ctor E (Some info) w
  = Fault (World (heap w)
                 (trace w ++
                  [HidOpen (vendor_id info) (product_id info) (serial_number info)
                     (hid_open_ret E (vendor_id info) (product_id info)
                                   (serial_number info));
                   Calloc 1 sizeof_packet NULL])).
Proof.
  intros Hpid Hdev Hmem. destruct w as [hp tr].
  unfold DualShock4_ctor.
  destruct (decide (product_id info ≠ _)) as [|_]; [done |].
  rewrite bind_run. unfold hid_open. cbn [heap trace].
  destruct (decide (_ = NULL)) as [|_]; [done |].
  rewrite bind_run. unfold calloc. cbn [heap trace].
  destruct (decide (calloc_ret E = NULL)) as [_|]; [| done].
  rewrite <- app_assoc.
  destruct (decide (usage info = -1)).
  - destruct (decide (0 = 1)) as [|_]; [done |]. reflexivity.
  - destruct (decide (1 = 1)) as [_|]; [| done]. reflexivity.
Qed.

Lemma ctor_null E w :
  DualShock4_ctor E None w
  = Aborted (World (heap w)
               (trace w ++ [Cout "The given openning device infor pointer is NULL";
                            Abort])).
Proof.
  destruct w. unfold DualShock4_ctor. rewrite bind_run.
  unfold cout, emit, abort. cbn [heap trace]. by rewrite <- app_assoc.
Qed.

Lemma ctor_mismatch E info w :
  product_id info ≠ DUALSHOCK_4_CONTROLLER_PRO_ID →
  DualShock4_ctor E (Some info) w
  = Aborted (World (heap w) (trace w ++ [Cout "Controller type mismathced"; Abort])).
Proof.
  intros Hpid. destruct w. unfold DualShock4_ctor.
  destruct (decide (product_id info ≠ _)) as [_|]; [| done].
  rewrite bind_run. unfold cout, emit, abort. cbn [heap trace].
  by rewrite <- app_assoc.
Qed.

Lemma ctor_open_fail E info w :
  product_id info = DUALSHOCK_4_CONTROLLER_PRO_ID →
  hid_open_ret E (vendor_id info) (product_id info) (serial_number info) = NULL →
  DualShock4_ctor E (Some info) w
  = Aborted (World (heap w)
               (trace w ++
                [HidOpen (vendor_id info) (product_id info) (serial_number info) NULL;
                 HidError NULL; Abort])).
Proof.
  intros Hpid Hdev. destruct w as [hp tr]. unfold DualShock4_ctor.
  destruct (decide (product_id info ≠ _)) as [|_]; [done |].
  rewrite bind_run. unfold hid_open. cbn [heap trace]. rewrite Hdev.
  destruct (decide (NULL = NULL)) as [_|]; [| done].
  rewrite bind_run. unfold hid_error, emit, abort. cbn [heap trace].
  by rewrite <- !app_assoc.
Qed.

(** What a completed construction tells. *)
Lemma ctor_done_inv E oi w h w' :
  DualShock4_ctor E oi w = Done h w' →
  ∃ info, oi = Some info ∧
    product_id info = DUALSHOCK_4_CONTROLLER_PRO_ID ∧
    hid_open_ret E (vendor_id info) (product_id info) (serial_number info) ≠ NULL ∧
    calloc_ret E ≠ NULL ∧
    h = ctor_handle E info ∧
    w' = World (<[calloc_ret E := fresh_packet info]> (heap w))
               (trace w ++ ctor_events E info).
Proof.
  intros Hrun. destruct oi as [info|]; [| by rewrite ctor_null in Hrun].
  exists info.
  destruct (decide (product_id info = DUALSHOCK_4_CONTROLLER_PRO_ID)) as [Hpid|Hpid];
    [| by rewrite ctor_mismatch in Hrun].
  destruct (decide (hid_open_ret E (vendor_id info) (product_id info)
                                 (serial_number info) = NULL)) as [Hdev|Hdev];
    [by rewrite ctor_open_fail in Hrun |].
  destruct (decide (calloc_ret E = NULL)) as [Hmem|Hmem];
    [by rewrite ctor_alloc_fail in Hrun |].
  rewrite ctor_run in Hrun by done. by simplify_eq.
Qed.

(** ** The destructor *)

Lemma dtor_run E h hp tr b :
  block_at hp (controllerOutPacket h) = Some b →
  length b = sizeof_packet →
  DualShock4_dtor E h (World hp tr)
  = Done tt (World (delete (controllerOutPacket h) hp)
                   (tr ++ dtor_events E h b tr)).
Proof.
  intros Hb Hlen. pose proof (block_at_Some _ _ _ Hb) as [Hp _].
  unfold DualShock4_dtor, dtor_events.
  rewrite bind_run.
  erewrite store_run; [| done | rewrite Hlen; vm_compute; lia].
  rewrite bind_run.
  erewrite send_run;
    [| by apply block_at_insert
     | rewrite length_insert, Hlen; destruct (platform E); vm_compute; lia].
  rewrite bind_run.
  erewrite free_run; [| by apply block_at_insert].
  rewrite delete_insert_eq.
  rewrite bind_run. unfold cout, emit. cbn [heap trace].
  rewrite bind_run.
  destruct (decide (dev h ≠ NULL)).
  - unfold hid_close, emit. cbn [heap trace].
    rewrite <- !app_assoc. reflexivity.
  - unfold mret, M_ret. cbn [heap trace].
    rewrite <- !app_assoc. reflexivity.
Qed.

(** ** The builder *)

Section BuilderFacts.
Variable E : env.
Variable F : flag_masks.

Import Builder.

Lemma call_block_length c b : length (call_block F c b) = length b.
Proof.
  destruct c; unfold call_block, or_flags_block;
    by rewrite ?length_insert.
Qed.

Lemma or_flags_run h mask hp tr b :
  block_at hp (controllerOutPacket h) = Some b →
  length b = sizeof_packet →
  or_flags h mask (World hp tr)
  = Done h (World (<[controllerOutPacket h := or_flags_block mask b]> hp) tr).
Proof.
  intros Hb Hlen. unfold or_flags, or_flags_block.
  destruct (lookup_lt_is_Some_2 b (off flags)) as [f Hf];
    [rewrite Hlen; vm_compute; lia |].
  rewrite bind_run. erewrite load_run by done.
  rewrite bind_run. erewrite store_run; [| done | rewrite Hlen; vm_compute; lia].
  by rewrite Hf.
Qed.

Lemma run_call_live c h hp tr b :
  block_at hp (controllerOutPacket h) = Some b →
  length b = sizeof_packet →
  run_call E F c h (World hp tr)
  = Done h (World (<[controllerOutPacket h := call_block F c b]> hp)
                  (tr ++ call_events E c h b tr)).
Proof.
  intros Hb Hlen. pose proof (block_at_Some _ _ _ Hb) as [Hp Hhp].
  destruct c; unfold run_call, call_block, call_events;
    rewrite ?app_nil_r.
  - by apply or_flags_run.
  - by apply or_flags_run.
  - by apply or_flags_run.
  - unfold setRumBle. rewrite bind_run.
    erewrite store_run; [| done | rewrite Hlen; vm_compute; lia].
    rewrite bind_run.
    erewrite store_run;
      [| by apply block_at_insert
       | rewrite length_insert, Hlen; vm_compute; lia].
    by rewrite insert_insert_eq.
  - unfold setLEDColor. rewrite bind_run.
    erewrite store_run; [| done | rewrite Hlen; vm_compute; lia].
    rewrite bind_run.
    erewrite store_run;
      [| by apply block_at_insert
       | rewrite length_insert, Hlen; vm_compute; lia].
    rewrite bind_run.
    erewrite store_run;
      [| by apply block_at_insert
       | rewrite !length_insert, Hlen; vm_compute; lia].
    by rewrite !insert_insert_eq.
  - unfold setLEDOnPeriod. rewrite bind_run.
    erewrite store_run; [| done | rewrite Hlen; vm_compute; lia].
    done.
  - unfold setLEDOffPeriod. rewrite bind_run.
    erewrite store_run; [| done | rewrite Hlen; vm_compute; lia].
    done.
  - unfold send. rewrite bind_run.
    erewrite send_run; [| done | by rewrite Hlen].
    by rewrite insert_id.
Qed.

Lemma calls_block_length cs b : length (calls_block F cs b) = length b.
Proof.
  revert b. induction cs as [|c cs IH]; intros b; simpl; [done |].
  by rewrite IH, call_block_length.
Qed.

Lemma run_calls_live cs h hp tr b :
  block_at hp (controllerOutPacket h) = Some b →
  length b = sizeof_packet →
  run_calls E F cs h (World hp tr)
  = Done h (World (<[controllerOutPacket h := calls_block F cs b]> hp)
                  (tr ++ calls_events E F cs h b tr)).
Proof.
  revert hp tr b. induction cs as [|c cs IH]; intros hp tr b Hb Hlen.
  - pose proof (block_at_Some _ _ _ Hb) as [_ Hhp].
    simpl. rewrite app_nil_r, insert_id by done. reflexivity.
  - pose proof (block_at_Some _ _ _ Hb) as [Hp _].
    cbn [run_calls calls_block calls_events].
    rewrite bind_run, (run_call_live c h hp tr b) by done.
    rewrite (IH _ _ (call_block F c b));
      [| by apply block_at_insert | by rewrite call_block_length].
    by rewrite insert_insert_eq, app_assoc.
Qed.

End BuilderFacts.

(** ** Frames *)

Lemma member_bytes_insert_ne m i v (b : list Z) :
  (i < off m ∨ off m + member_size m ≤ i)%nat →
  member_bytes m (<[i := v]> b) = member_bytes m b.
Proof.
  intros [Hlt|Hge]; unfold member_bytes.
  - by rewrite drop_insert_lt.
  - rewrite drop_insert_ge by lia. apply take_insert_ge. lia.
Qed.

Lemma lookup_report_id_insert i v (b : list Z) :
  (off_reportId < i)%nat → <[i := v]> b !! off_reportId = b !! off_reportId.
Proof. intros Hi. apply list_lookup_insert_ne. lia. Qed.

Section Frames.
Variable F : flag_masks.
Import Builder.

Lemma call_block_frame c m b :
m ∉ written c → member_bytes m (call_block F c b) = member_bytes m b.
Proof.
intros Hm.
destruct c; unfold call_block, or_flags_block; cbn [written] in Hm;
  try done;
  destruct m;
  try (exfalso; apply Hm; apply (bool_decide_unpack _); vm_compute; exact I);
  rewrite ?member_bytes_insert_ne; try done; vm_compute; lia.
Qed.

Lemma call_block_report_id c b :
call_block F c b !! off_reportId = b !! off_reportId.
Proof.
destruct c; unfold call_block, or_flags_block;
  rewrite ?lookup_report_id_insert; try done; vm_compute; lia.
Qed.

Lemma calls_block_padding cs b :
member_bytes padding (calls_block F cs b) = member_bytes padding b.
Proof.
revert b. induction cs as [|c cs IH]; intros b; simpl; [done |].
rewrite IH. apply call_block_frame.
destruct c; apply (bool_decide_unpack _); vm_compute; exact I.
Qed.

End Frames.

(** ** Sessions *)

Lemma events_since_done {A} (a : A) hp hp' tr evs :
  events_since (World hp tr) (Done a (World hp' (tr ++ evs))) = evs.
Proof. unfold events_since. simpl. apply drop_app_length. Qed.

Lemma events_since_aborted {A} hp hp' tr evs :
  events_since (A := A) (World hp tr) (Aborted (World hp' (tr ++ evs))) = evs.
Proof. unfold events_since. simpl. apply drop_app_length. Qed.

(** An [unsigned short] is never -1. *)
Lemma usage_in_range info : 0 ≤ usage info ≤ USHRT_MAX.
Proof.
  pose proof (in_range info) as Hr.
  apply andb_True in Hr as [_ Hu]. by apply bool_decide_unpack in Hu.
Qed.

Lemma usage_not_minus_one info : usage info ≠ -1.
Proof. pose proof (usage_in_range info). lia. Qed.

Lemma fresh_packet_usb info :
  fresh_packet info = 0x05 :: replicate sizeof_payload 0.
Proof.
  unfold fresh_packet.
  destruct (decide (usage info = -1)) as [Hu|_]; [| done].
  by apply usage_not_minus_one in Hu.
Qed.

Lemma fresh_packet_length info : length (fresh_packet info) = sizeof_packet.
Proof. unfold fresh_packet. by destruct (decide (usage info = -1)). Qed.

Lemma fresh_packet_payload info :
  payload_of (fresh_packet info) = replicate sizeof_payload 0.
Proof. unfold fresh_packet. by destruct (decide (usage info = -1)). Qed.

Section SessionFacts.
Variable E : env.
Variable F : flag_masks.
Import Builder.

Lemma session_run info cs w :
  product_id info = DUALSHOCK_4_CONTROLLER_PRO_ID →
  hid_open_ret E (vendor_id info) (product_id info) (serial_number info) ≠ NULL →
  calloc_ret E ≠ NULL →
  session E F (Some info) cs w
  = Done (ctor_handle E info)
      (World (<[calloc_ret E := calls_block F cs (fresh_packet info)]> (heap w))
         (trace w ++ ctor_events E info
          ++ calls_events E F cs (ctor_handle E info) (fresh_packet info)
               (trace w ++ ctor_events E info))).
Proof.
  intros Hpid Hdev Hmem. unfold session.
  rewrite bind_run, ctor_run by done.
  erewrite run_calls_live;
    [| by apply block_at_insert | apply fresh_packet_length].
  cbn [controllerOutPacket ctor_handle].
  by rewrite insert_insert_eq, app_assoc.
Qed.

Lemma session_done_inv oi cs w h w' :
  session E F oi cs w = Done h w' →
  ∃ info, oi = Some info ∧
    product_id info = DUALSHOCK_4_CONTROLLER_PRO_ID ∧
    hid_open_ret E (vendor_id info) (product_id info) (serial_number info) ≠ NULL ∧
    calloc_ret E ≠ NULL ∧
    h = ctor_handle E info ∧
    w' = World (<[calloc_ret E := calls_block F cs (fresh_packet info)]> (heap w))
           (trace w ++ ctor_events E info
            ++ calls_events E F cs (ctor_handle E info) (fresh_packet info)
                 (trace w ++ ctor_events E info)).
Proof.
  intros Hrun. unfold session in Hrun. rewrite bind_run in Hrun.
  destruct (DualShock4_ctor E oi w) as [h0 w0| | |] eqn:Hctor; try done.
  apply ctor_done_inv in Hctor as (info & -> & Hpid & Hdev & Hmem & -> & ->).
  exists info.
  pose proof (session_run info cs w Hpid Hdev Hmem) as Hs.
  unfold session in Hs. rewrite bind_run, ctor_run in Hs by done.
  rewrite Hs in Hrun. by simplify_eq.
Qed.

(** Every handle a session yields satisfies the class invariant. *)
Lemma session_live oi cs w h w' :
  session E F oi cs w = Done h w' → live w' h.
Proof.
  intros (info & -> & Hpid & Hdev & Hmem & -> & ->)%session_done_inv.
  split; [done |].
  exists (calls_block F cs (fresh_packet info)). split.
  - by apply block_at_insert.
  - by rewrite calls_block_length, fresh_packet_length.
Qed.

End SessionFacts.

Lemma dtor_live E h w :
  live w h →
  ∃ b, packet w h = Some b ∧ length b = sizeof_packet ∧
    DualShock4_dtor E h w
    = Done tt (World (delete (controllerOutPacket h) (heap w))
                 (trace w ++ dtor_events E h b (trace w))).
Proof.
  intros [_ (b & Hb & Hlen)]. exists b. destruct w as [hp tr].
  repeat split; [done.. |]. by apply dtor_run.
Qed.

Section LifetimeFacts.
Variable E : env.
Variable F : flag_masks.
Import Builder.

Lemma lifetime_run info cs w :
  product_id info = DUALSHOCK_4_CONTROLLER_PRO_ID →
  hid_open_ret E (vendor_id info) (product_id info) (serial_number info) ≠ NULL →
  calloc_ret E ≠ NULL →
  lifetime E F (Some info) cs w
  = Done tt
      (World (delete (calloc_ret E) (heap w))
         (trace w ++ ctor_events E info
          ++ calls_events E F cs (ctor_handle E info) (fresh_packet info)
               (trace w ++ ctor_events E info)
          ++ dtor_events E (ctor_handle E info)
               (calls_block F cs (fresh_packet info))
               (trace w ++ ctor_events E info
                ++ calls_events E F cs (ctor_handle E info) (fresh_packet info)
                     (trace w ++ ctor_events E info)))).
Proof.
  intros Hpid Hdev Hmem. unfold lifetime.
  rewrite bind_run, session_run by done.
  erewrite dtor_run;
    [| by apply block_at_insert
     | by rewrite calls_block_length, fresh_packet_length].
  cbn [controllerOutPacket ctor_handle].
  by rewrite delete_insert_eq, <- !app_assoc.
Qed.

(** Every packet a chain of calls stages has the padding it started with. *)
Lemma calls_events_staged_padding cs h b tr mem :
  mem ∈ omap staged (calls_events E F cs h b tr) →
  member_bytes padding mem = member_bytes padding b.
Proof.
  revert b tr. induction cs as [|c cs IH]; intros b tr Hin.
  - by apply elem_of_nil in Hin.
  - cbn [calls_events] in Hin. rewrite omap_app, elem_of_app in Hin.
    destruct Hin as [Hin|Hin].
    + destruct c; cbn in Hin; try by apply elem_of_nil in Hin.
      apply list_elem_of_singleton in Hin. by subst.
    + apply IH in Hin. rewrite Hin. apply call_block_frame.
      destruct c; apply (bool_decide_unpack _); vm_compute; exact I.
Qed.

End LifetimeFacts.

Lemma fresh_packet_padding info :
  member_bytes padding (fresh_packet info) = replicate 21 0.
Proof. unfold fresh_packet. by destruct (decide (usage info = -1)). Qed.

(** A block of 32 bytes, byte by byte. *)
Ltac explode b Hlen :=
  do 32 (destruct b as [|? b]; [by vm_compute in Hlen |]);
  destruct b; [| by vm_compute in Hlen].

Lemma marked_payload_is_reset (b : list Z) :
  length b = sizeof_packet →
  (∀ m, m ≠ reserved_unk → member_bytes m b = replicate (member_size m) 0) →
  payload_of (<[off reserved_unk := 0x01]> b) = reset_payload.
Proof.
  intros Hlen Hz.
  pose proof (Hz flags ltac:(done)) as H1.
  pose proof (Hz Empty ltac:(done)) as H2.
  pose proof (Hz smallMotorPower ltac:(done)) as H3.
  pose proof (Hz largeMotorPower ltac:(done)) as H4.
  pose proof (Hz redLed ltac:(done)) as H5.
  pose proof (Hz greenLed ltac:(done)) as H6.
  pose proof (Hz blueLed ltac:(done)) as H7.
  pose proof (Hz ledFlashOnTime ltac:(done)) as H8.
  pose proof (Hz ledFlashOffTime ltac:(done)) as H9.
  pose proof (Hz padding ltac:(done)) as H10.
  clear Hz. explode b Hlen.
  vm_compute in H1, H2, H3, H4, H5, H6, H7, H8, H9, H10.
  simplify_eq. by vm_compute.
Qed.

(** ** The constructor, characterised *)

(** Construction completes exactly when the product id matches, the
    device opens and the allocation succeeds; [vendor_id] plays no part. *)
Lemma ctor_completes_iff E info w :
  is_done (DualShock4_ctor E (Some info) w) = true ↔
  product_id info = DUALSHOCK_4_CONTROLLER_PRO_ID ∧
  hid_open_ret E (vendor_id info) (product_id info) (serial_number info) ≠ NULL ∧
  calloc_ret E ≠ NULL.
Proof.
  split.
  - destruct (DualShock4_ctor E (Some info) w) as [h w'| | |] eqn:Hrun; try done.
    apply ctor_done_inv in Hrun as (info' & [= <-] & ? & ? & ? & _). done.
  - intros (Hpid & Hdev & Hmem). by rewrite ctor_run.
Qed.

(** It aborts exactly when the product id differs or the device does not
    open. *)
Lemma ctor_aborts_iff E info w :
  is_aborted (DualShock4_ctor E (Some info) w) = true ↔
  product_id info ≠ DUALSHOCK_4_CONTROLLER_PRO_ID ∨
  hid_open_ret E (vendor_id info) (product_id info) (serial_number info) = NULL.
Proof.
  destruct (decide (product_id info = DUALSHOCK_4_CONTROLLER_PRO_ID)) as [Hpid|Hpid];
    [| rewrite ctor_mismatch by done; split; [by left | done]].
  destruct (decide (hid_open_ret E (vendor_id info) (product_id info)
                                 (serial_number info) = NULL)) as [Hdev|Hdev];
    [rewrite ctor_open_fail by done; split; [by right | done] |].
  destruct (decide (calloc_ret E = NULL)) as [Hmem|Hmem].
  - rewrite ctor_alloc_fail by done. split; [done | by intros [?|?]].
  - rewrite ctor_run by done. split; [done | by intros [?|?]].
Qed.

(** ** A session, byte by byte

    A wired pad: rumble at (100, 200) is set, enabled and sent, then the
    LED is set to red, enabled and sent, then the handle is destroyed.
    The two sends carry 32 bytes and the state persists from one to the
    next; the destructor's write carries the first 8 bytes of the packet
    with the marker set and the fields as they were. *)
Example session_bytes :
  omap transmitted
    (events_since boot
       (lifetime host64 masks_124 (Some pad_usb)
          [Builder.SetRumBle 100 200; Builder.EnableRumble; Builder.Send;
           Builder.SetLEDColor 255 0 0; Builder.EnableLED; Builder.Send]
          boot))
  = [ 0x05 :: 1 :: 0 :: 0 :: 100 :: 200 :: 0 :: 0 :: 0 :: replicate 23 0;
      0x05 :: 3 :: 0 :: 0 :: 100 :: 200 :: 255 :: 0 :: 0 :: replicate 23 0;
      [0x05; 3; 0x01; 0; 100; 200; 255; 0] ].
Proof. by vm_compute. Qed.

(** * The claims *)

(** C1. Whatever the usage indicator of the descriptor, a completed
    construction sets [isUsb] to 1 and the report id to the USB value
    0x05. The member is an [unsigned short], so the test against -1
    never holds, not even when -1 was assigned to it, and the
    Bluetooth/wireless value 0x11 is never selected. *)
Theorem C1_report_id_is_always_usb E info w h w' :
  DualShock4_ctor E (Some info) w = Done h w' →
  usage info ≠ -1 ∧ isUsb h = 1 ∧ report_id w' h = Some 0x05.
Proof.
  intros (info' & [= <-] & _ & _ & Hmem & -> & ->)%ctor_done_inv.
  pose proof (usage_not_minus_one info) as Hu.
  split; [done |].
  unfold report_id, packet. cbn [heap controllerOutPacket ctor_handle isUsb].
  rewrite block_at_insert by done. rewrite fresh_packet_usb.
  by destruct (decide (usage info = -1)).
Qed.

Lemma C1_report_id_is_always_usb_witness :
  usage pad_unset = 65535 ∧
  ∃ h w', DualShock4_ctor host64 (Some pad_unset) boot = Done h w' ∧
          isUsb h = 1 ∧ report_id w' h = Some 0x05.
Proof.
  split; [reflexivity |].
  eexists _, _. split; [vm_compute; reflexivity |].
  eapply (C1_report_id_is_always_usb host64 pad_unset boot).
  vm_compute; reflexivity.
Defined.

(** C2. The write the destructor makes transmits as many bytes as a
    pointer has on the platform (4 or 8), the length argument being
    [sizeof(this->controllerOutPacket)]; it is never the 32 bytes of the
    packet. *)
Theorem C2_teardown_write_is_pointer_sized E h w :
  live w h →
  length <$> omap transmitted (events_since w (DualShock4_dtor E h w))
  = [sizeof_pointer (platform E)] ∧
  sizeof_pointer (platform E) ≠ sizeof_packet.
Proof.
  intros Hlive. destruct (dtor_live E h w Hlive) as (b & _ & Hlen & ->).
  destruct w as [hp tr]. rewrite events_since_done.
  unfold dtor_events. cbn [heap trace].
  split.
  - destruct (decide (dev h ≠ NULL)); cbn;
      rewrite length_take_le; try done;
      rewrite length_insert, Hlen; destruct (platform E); vm_compute; lia.
  - destruct (platform E); vm_compute; lia.
Qed.

Lemma C2_teardown_write_is_pointer_sized_witness :
  omap transmitted (events_since boot (lifetime host64 masks_124 (Some pad_usb) [] boot))
  = [[0x05; 0; 0x01; 0; 0; 0; 0; 0]] ∧
  ∃ h w, session host64 masks_124 (Some pad_usb) [] boot = Done h w ∧
    length <$> omap transmitted (events_since w (DualShock4_dtor host64 h w)) = [8%nat].
Proof.
  split; [vm_compute; reflexivity |].
  eexists _, _. split; [vm_compute; reflexivity |].
  eapply (C2_teardown_write_is_pointer_sized host64).
  eapply (session_live host64 masks_124 (Some pad_usb) [] boot).
  vm_compute; reflexivity.
Defined.

(** C3, as the spec words it, fails: the destructor writes the reset
    marker and nothing else, so after [setRumBle(100, 200)] the payload it
    stages still carries the two magnitudes and is not the canonical reset
    payload. *)
Lemma C3_teardown_keeps_mutated_fields :
  ¬ (∀ E F oi cs w h w',
       session E F oi cs w = Done h w' →
       teardown_payloads E h w' = [reset_payload] ∧
       HidClose (dev h) ∈ events_since w' (DualShock4_dtor E h w')).
Proof.
  intros Hall.
  eassert (session host64 masks_124 (Some pad_usb)
             [Builder.SetRumBle 100 200] boot = Done _ _) as Hs
    by (vm_compute; reflexivity).
  apply Hall in Hs as [Hs _]. vm_compute in Hs. discriminate Hs.
Qed.

(** C3, amended. On teardown of every handle the destructor writes the
    reset marker 0x01 into [reserved_unk] and changes no other byte of the
    staging packet; it then attempts exactly one send, frees the packet
    and closes the connection. The payload staged for that send is the
    canonical reset payload whenever the other payload members are zero,
    as they are on a handle that was never mutated. *)
Theorem C3_teardown_marks_sends_releases E h w b :
  live w h →
  packet w h = Some b →
  events_since w (DualShock4_dtor E h w)
  = [HidSendOutputReport (dev h) (controllerOutPacket h)
       (<[off reserved_unk := 0x01]> b) (sizeof_pointer (platform E))
       (hid_send_ret E (trace w));
     Free (controllerOutPacket h);
     Cout "test1";
     HidClose (dev h);
     Cout "test1"] ∧
  is_done (DualShock4_dtor E h w) = true ∧
  teardown_payloads E h w = [payload_of (<[off reserved_unk := 0x01]> b)] ∧
  member_bytes reserved_unk (<[off reserved_unk := 0x01]> b) = [0x01] ∧
  (∀ m, m ≠ reserved_unk →
        member_bytes m (<[off reserved_unk := 0x01]> b) = member_bytes m b) ∧
  <[off reserved_unk := 0x01]> b !! off_reportId = b !! off_reportId ∧
  ((∀ m, m ≠ reserved_unk → member_bytes m b = replicate (member_size m) 0) →
   payload_of (<[off reserved_unk := 0x01]> b) = reset_payload).
Proof.
  intros Hlive Hb.
  destruct (dtor_live E h w Hlive) as (b' & Hb' & Hlen & Hrun).
  assert (b' = b) as -> by congruence.
  destruct Hlive as [Hdev _].
  unfold teardown_payloads. rewrite Hrun. destruct w as [hp tr].
  rewrite events_since_done. unfold dtor_events. cbn [heap trace].
  destruct (decide (dev h ≠ NULL)) as [_|]; [| done].
  repeat split.
  - clear Hb Hb' Hrun. explode b Hlen. reflexivity.
  - intros m Hm. apply member_bytes_insert_ne.
    destruct m; try done; vm_compute; lia.
  - apply lookup_report_id_insert. vm_compute. lia.
  - by apply marked_payload_is_reset.
Qed.

Lemma C3_teardown_marks_sends_releases_witness :
  ∃ h w b, DualShock4_ctor host64 (Some pad_usb) boot = Done h w ∧
    packet w h = Some b ∧
    teardown_payloads host64 h w = [payload_of (<[off reserved_unk := 0x01]> b)] ∧
    payload_of (<[off reserved_unk := 0x01]> b) = reset_payload.
Proof.
  eexists _, _, _. split; [vm_compute; reflexivity |].
  split; [vm_compute; reflexivity |].
  assert (live (World (<[4096 := fresh_packet pad_usb]> ∅)
                  (ctor_events host64 pad_usb))
               (ctor_handle host64 pad_usb)) as Hlive.
  { split; [vm_compute; congruence |].
    eexists. split; vm_compute; reflexivity. }
  split.
  - eapply (C3_teardown_marks_sends_releases host64); [exact Hlive |].
    vm_compute; reflexivity.
  - eapply (C3_teardown_marks_sends_releases host64); [exact Hlive | |].
    + vm_compute; reflexivity.
    + intros m _. destruct m; vm_compute; reflexivity.
Defined.

(** C4. The constructor never looks at the vendor id: a descriptor of
    another vendor with product id 2508 whose device opens is accepted,
    and the foreign vendor id is what [hid_open] is given. *)
Theorem C4_other_vendor_accepted :
  vendor_id pad_other_vendor ≠ SONY_INTERACTIVE_ENTERTAINMENT_VENDOR_ID ∧
  is_done (DualShock4_ctor host64 (Some pad_other_vendor) boot) = true ∧
  events_since boot (DualShock4_ctor host64 (Some pad_other_vendor) boot)
  = [HidOpen 1118 2508 [] 77; Calloc 1 32 4096].
Proof. by vm_compute. Qed.

(** C5. In every state of a handle the 21 reserved bytes (the [padding]
    member) are zero: after construction and any chain of builder calls
    the staging packet has them zero, and so has every packet staged for
    a write during the handle's life, the destructor's included. *)
Theorem C5_reserved_bytes_stay_zero E F oi cs w h w' :
  session E F oi cs w = Done h w' →
  (∃ b, packet w' h = Some b ∧ member_bytes padding b = replicate 21 0) ∧
  (∀ mem, mem ∈ omap staged (events_since w (lifetime E F oi cs w)) →
          member_bytes padding mem = replicate 21 0).
Proof.
  intros (info & -> & Hpid & Hdev & Hmem & -> & ->)%session_done_inv.
  split.
  - exists (Builder.calls_block F cs (fresh_packet info)).
    unfold packet. cbn [heap controllerOutPacket ctor_handle].
    rewrite block_at_insert by done.
    by rewrite calls_block_padding, fresh_packet_padding.
  - intros mem. rewrite lifetime_run by done. destruct w as [hp tr].
    cbn [heap trace]. rewrite events_since_done.
    rewrite !omap_app, !elem_of_app. intros [Hin|[Hin|Hin]].
    + cbn in Hin. by apply elem_of_nil in Hin.
    + apply calls_events_staged_padding in Hin.
      by rewrite Hin, fresh_packet_padding.
    + unfold dtor_events in Hin.
      destruct (decide (dev (ctor_handle E info) ≠ NULL));
        cbn in Hin; apply list_elem_of_singleton in Hin; subst mem;
        (rewrite member_bytes_insert_ne by (vm_compute; lia));
        by rewrite calls_block_padding, fresh_packet_padding.
Qed.

Lemma C5_reserved_bytes_stay_zero_witness :
  ∃ h w', session host64 masks_124 (Some pad_usb)
            [Builder.SetLEDColor 255 0 0; Builder.EnableLED; Builder.Send] boot
          = Done h w' ∧
    ∃ b, packet w' h = Some b ∧ member_bytes padding b = replicate 21 0.
Proof.
  eexists _, _. split; [vm_compute; reflexivity |].
  eapply (C5_reserved_bytes_stay_zero host64 masks_124 (Some pad_usb)
            [Builder.SetLEDColor 255 0 0; Builder.EnableLED; Builder.Send] boot).
  vm_compute; reflexivity.
Defined.

(** C6. For every descriptor whose product id is not 2508 the
    constructor aborts, and no call to [hid_open] has been made. *)
Theorem C6_mismatch_aborts_before_open E info w :
  product_id info ≠ DUALSHOCK_4_CONTROLLER_PRO_ID →
  is_aborted (DualShock4_ctor E (Some info) w) = true ∧
  filter is_open (events_since w (DualShock4_ctor E (Some info) w)) = [].
Proof.
  intros Hpid. rewrite ctor_mismatch by done. destruct w as [hp tr].
  cbn [heap trace]. by rewrite events_since_aborted.
Qed.

Lemma C6_mismatch_aborts_before_open_witness :
  is_aborted (DualShock4_ctor host64 (Some pad_other_product) boot) = true ∧
  filter is_open (events_since boot
                    (DualShock4_ctor host64 (Some pad_other_product) boot)) = [].
Proof.
  apply (C6_mismatch_aborts_before_open host64 pad_other_product boot).
  vm_compute. congruence.
Defined.

(** C7. On every teardown the connection is closed whatever status [r]
    the final write returns: the destructor completes, and its events
    are the write returning [r], then later the close of the device. *)
Theorem C7_teardown_always_closes E h w r :
  live w h →
  hid_send_ret E (trace w) = r →
  is_done (DualShock4_dtor E h w) = true ∧
  ∃ mem pre post,
    events_since w (DualShock4_dtor E h w)
    = HidSendOutputReport (dev h) (controllerOutPacket h) mem
        (sizeof_pointer (platform E)) r
      :: pre ++ HidClose (dev h) :: post.
Proof.
  intros Hlive <-.
  destruct (dtor_live E h w Hlive) as (b & _ & _ & ->).
  destruct Hlive as [Hdev _]. split; [done |].
  destruct w as [hp tr]. rewrite events_since_done.
  unfold dtor_events. cbn [heap trace].
  destruct (decide (dev h ≠ NULL)) as [_|]; [| done].
  by eexists _, [_; _], [_].
Qed.

Lemma C7_teardown_always_closes_witness :
  ∃ h w, DualShock4_ctor host64 (Some pad_usb) boot = Done h w ∧
    is_done (DualShock4_dtor host64 h w) = true ∧
    ∃ mem pre post,
      events_since w (DualShock4_dtor host64 h w)
      = HidSendOutputReport (dev h) (controllerOutPacket h) mem 8 (-1)
        :: pre ++ HidClose (dev h) :: post.
Proof.
  eexists _, _. split; [vm_compute; reflexivity |].
  apply (C7_teardown_always_closes host64).
  - split; [vm_compute; congruence |].
    eexists. split; vm_compute; reflexivity.
  - vm_compute; reflexivity.
Defined.

(** C8. After every successful construction the staging packet is a
    live block of 32 bytes whose 31 payload bytes are all zero; its
    [flags] byte in particular selects no subsystem. *)
Theorem C8_payload_zero_initialised E oi w h w' :
  DualShock4_ctor E oi w = Done h w' →
  ∃ b, packet w' h = Some b ∧
    length b = sizeof_packet ∧
    sizeof_payload = 31%nat ∧
    payload_of b = replicate 31 0 ∧
    member_bytes flags b = [0].
Proof.
  intros (info & -> & _ & _ & Hmem & -> & ->)%ctor_done_inv.
  exists (fresh_packet info).
  unfold packet. cbn [heap controllerOutPacket ctor_handle].
  rewrite block_at_insert by done.
  unfold fresh_packet. by destruct (decide (usage info = -1)).
Qed.

Lemma C8_payload_zero_initialised_witness :
  ∃ h w', DualShock4_ctor host64 (Some pad_usb) boot = Done h w' ∧
    ∃ b, packet w' h = Some b ∧ length b = sizeof_packet ∧
      sizeof_payload = 31%nat ∧ payload_of b = replicate 31 0 ∧
      member_bytes flags b = [0].
Proof.
  eexists _, _. split; [vm_compute; reflexivity |].
  eapply (C8_payload_zero_initialised host64 (Some pad_usb) boot).
  vm_compute; reflexivity.
Defined.

(** C9. Every builder call on a live handle returns the same handle and
    leaves the packet as long as it was, with the report id and every
    payload member it does not own unchanged; an enable call ORs its mask
    into [flags], so that no other flag bit changes. In particular,
    after construction and [setRumBle(s, l)] alone the [flags] byte is
    still zero while the two magnitudes are stored, and after
    construction, [enableRumble] and [send] the 32 transmitted bytes
    carry the rumble mask in [flags] and zero magnitudes. *)
Theorem C9_mutators_write_only_their_fields E F :
  (∀ c h w b,
     packet w h = Some b → length b = sizeof_packet →
     ∃ b',
       Builder.run_call E F c h w
       = Done h (World (<[controllerOutPacket h := b']> (heap w))
                   (trace w ++ Builder.call_events E c h b (trace w))) ∧
       length b' = length b ∧
       b' !! off_reportId = b !! off_reportId ∧
       (∀ m, m ∉ Builder.written c → member_bytes m b' = member_bytes m b) ∧
       (∀ mask f, Builder.enabled F c = Some mask →
                  b !! off flags = Some f →
                  b' !! off flags = Some (Z.lor f mask `mod` 256))) ∧
  (∀ info s l w h w',
     session E F (Some info) [Builder.SetRumBle s l] w = Done h w' →
     ∃ b, packet w' h = Some b ∧
       member_bytes flags b = [0] ∧
       member_bytes smallMotorPower b = [s `mod` 256] ∧
       member_bytes largeMotorPower b = [l `mod` 256]) ∧
  (∀ info w h w',
     session E F (Some info) [Builder.EnableRumble; Builder.Send] w = Done h w' →
     ∃ sent,
       omap transmitted (events_since w (Done h w')) = [sent] ∧
       length sent = 32%nat ∧
       member_bytes flags sent = [RUMBLE F `mod` 256] ∧
       member_bytes smallMotorPower sent = [0] ∧
       member_bytes largeMotorPower sent = [0]).
Proof.
  split; [| split].
  - intros c h [hp tr] b Hb Hlen. exists (Builder.call_block F c b).
    cbn [heap trace]. split; [by apply run_call_live |].
    split; [apply call_block_length |].
    split; [apply call_block_report_id |].
    split; [intros m Hm; by apply call_block_frame |].
    intros mask f Hen Hf.
    assert (off flags < length b)%nat as Hi by (by eapply lookup_lt_Some).
    destruct c; cbn in Hen; simplify_eq;
      unfold Builder.call_block, Builder.or_flags_block;
      rewrite Hf; by apply list_lookup_insert_eq.
  - intros info s l w h w'
      (info' & [= <-] & _ & _ & Hmem & -> & ->)%session_done_inv.
    eexists. unfold packet. cbn [heap controllerOutPacket ctor_handle].
    split; [by apply block_at_insert |].
    unfold fresh_packet. by destruct (decide (usage info = -1)).
  - intros info w h w'
      (info' & [= <-] & _ & _ & Hmem & -> & ->)%session_done_inv.
    destruct w as [hp tr]. cbn [heap trace]. rewrite events_since_done.
    eexists. split; [reflexivity |].
    unfold fresh_packet. by destruct (decide (usage info = -1)).
Qed.

Lemma C9_mutators_write_only_their_fields_witness :
  ∃ h w', session host64 masks_124 (Some pad_usb)
            [Builder.EnableRumble; Builder.Send] boot = Done h w' ∧
    ∃ sent, omap transmitted (events_since boot (Done h w')) = [sent] ∧
      length sent = 32%nat ∧
      member_bytes flags sent = [RUMBLE masks_124 `mod` 256] ∧
      member_bytes smallMotorPower sent = [0] ∧
      member_bytes largeMotorPower sent = [0].
Proof.
  eexists _, _. split; [vm_compute; reflexivity |].
  apply (proj2 (proj2 (C9_mutators_write_only_their_fields host64 masks_124))
           pad_usb boot).
  vm_compute; reflexivity.
Defined.

(** C10. Once the descriptor is accepted and the device is open, the
    accesses to the staging packet are valid exactly when [calloc]
    succeeds. If it returns NULL the constructor goes on to write the
    report id through the null pointer, with no check and no abort in
    between; if it returns a block, construction, every chain of builder
    calls and the destructor run without a fault. *)
Theorem C10_allocation_unchecked E F info cs w :
  product_id info = DUALSHOCK_4_CONTROLLER_PRO_ID →
  hid_open_ret E (vendor_id info) (product_id info) (serial_number info) ≠ NULL →
  (calloc_ret E = NULL →
   is_fault (DualShock4_ctor E (Some info) w) = true ∧
   events_since w (DualShock4_ctor E (Some info) w)
   = [HidOpen (vendor_id info) (product_id info) (serial_number info)
        (hid_open_ret E (vendor_id info) (product_id info) (serial_number info));
      Calloc 1 sizeof_packet NULL]) ∧
  (calloc_ret E ≠ NULL →
   is_done (lifetime E F (Some info) cs w) = true).
Proof.
  intros Hpid Hdev. split; intros Hmem.
  - rewrite ctor_alloc_fail by done. split; [done |].
    destruct w as [hp tr]. unfold events_since. cbn [heap trace trace_of].
    apply drop_app_length.
  - by rewrite lifetime_run.
Qed.

Lemma C10_allocation_unchecked_witness :
  is_fault (DualShock4_ctor host64_oom (Some pad_usb) boot) = true ∧
  is_done (lifetime host64 masks_124 (Some pad_usb)
             [Builder.SetRumBle 100 200; Builder.EnableRumble; Builder.Send]
             boot) = true.
Proof.
  split.
  - apply (C10_allocation_unchecked host64_oom masks_124 pad_usb [] boot);
      vm_compute; congruence.
  - apply (C10_allocation_unchecked host64 masks_124 pad_usb
             [Builder.SetRumBle 100 200; Builder.EnableRumble; Builder.Send] boot);
      vm_compute; congruence.
Defined.

(** * Further properties of the driver *)

(** X1. The outcome of the constructor on a non-null descriptor is
    decided by three tests and by nothing else: it completes exactly when
    the product id is 2508, the device opens and [calloc] gives a block;
    it aborts exactly when the product id differs or the device does not
    open; it faults exactly when both checks pass and [calloc] gives
    NULL. *)
Theorem X1_ctor_outcome E info w :
  let opened :=
    hid_open_ret E (vendor_id info) (product_id info) (serial_number info) in
  (is_done (DualShock4_ctor E (Some info) w) = true ↔
   product_id info = DUALSHOCK_4_CONTROLLER_PRO_ID ∧ opened ≠ NULL ∧
   calloc_ret E ≠ NULL) ∧
  (is_aborted (DualShock4_ctor E (Some info) w) = true ↔
   product_id info ≠ DUALSHOCK_4_CONTROLLER_PRO_ID ∨ opened = NULL) ∧
  (is_fault (DualShock4_ctor E (Some info) w) = true ↔
   product_id info = DUALSHOCK_4_CONTROLLER_PRO_ID ∧ opened ≠ NULL ∧
   calloc_ret E = NULL).
Proof.
  intros opened. subst opened.
  destruct (decide (product_id info = DUALSHOCK_4_CONTROLLER_PRO_ID)) as [Hpid|Hpid];
    [| rewrite ctor_mismatch by done; cbn; intuition congruence].
  destruct (decide (hid_open_ret E (vendor_id info) (product_id info)
                                 (serial_number info) = NULL)) as [Hdev|Hdev];
    [rewrite ctor_open_fail by done; cbn; intuition congruence |].
  destruct (decide (calloc_ret E = NULL)) as [Hmem|Hmem].
  - rewrite ctor_alloc_fail by done. cbn. intuition congruence.
  - rewrite ctor_run by done. cbn. intuition congruence.
Qed.

(** X2. Whenever the constructor aborts, on a null descriptor, a wrong
    product id or a failed open, it has allocated nothing and closed
    nothing: the heap is as before, the events it added hold no [calloc]
    and no [hid_close], and the last of them is the abort. *)
Theorem X2_abort_allocates_nothing E oi w w' :
  DualShock4_ctor E oi w = Aborted w' →
  heap w' = heap w ∧
  filter is_calloc (events_since w (Aborted (A := DualShock4) w')) = [] ∧
  filter is_close (events_since w (Aborted (A := DualShock4) w')) = [] ∧
  last (trace w') = Some Abort.
Proof.
  intros Hrun. destruct oi as [info|].
  - destruct (decide (product_id info = DUALSHOCK_4_CONTROLLER_PRO_ID)) as [Hpid|Hpid].
    + destruct (decide (hid_open_ret E (vendor_id info) (product_id info)
                                     (serial_number info) = NULL)) as [Hdev|Hdev].
      * rewrite ctor_open_fail in Hrun by done. destruct w as [hp tr].
        simplify_eq. rewrite events_since_aborted. cbn [heap trace].
        repeat split; try done.
        by rewrite (last_app _ [_; _; _]).
      * destruct (decide (calloc_ret E = NULL)) as [Hmem|Hmem].
        -- by rewrite ctor_alloc_fail in Hrun.
        -- by rewrite ctor_run in Hrun.
    + rewrite ctor_mismatch in Hrun by done. destruct w as [hp tr].
      simplify_eq. rewrite events_since_aborted. cbn [heap trace].
      repeat split; try done.
      by rewrite (last_app _ [_; _]).
  - rewrite ctor_null in Hrun. destruct w as [hp tr].
    simplify_eq. rewrite events_since_aborted. cbn [heap trace].
    repeat split; try done.
    by rewrite (last_app _ [_; _]).
Qed.

Lemma X2_abort_allocates_nothing_witness :
  ∃ w', DualShock4_ctor host64 None boot = Aborted w' ∧ heap w' = heap boot ∧
        last (trace w') = Some Abort.
Proof.
  eexists. split; [vm_compute; reflexivity |].
  split; eapply (X2_abort_allocates_nothing host64 None boot);
    vm_compute; reflexivity.
Defined.

(** X3. A completed construction touches one block only: every other
    address of the heap holds what it held, and the events added are one
    [hid_open] with the descriptor's own vendor id, product id and serial
    number, followed by one [calloc] of one packet. *)
Theorem X3_ctor_frame E info w h w' :
  DualShock4_ctor E (Some info) w = Done h w' →
  (∀ q, q ≠ controllerOutPacket h → heap w' !! q = heap w !! q) ∧
  events_since w (Done h w')
  = [HidOpen (vendor_id info) (product_id info) (serial_number info) (dev h);
     Calloc 1 sizeof_packet (controllerOutPacket h)].
Proof.
  intros (info' & [= <-] & _ & _ & Hmem & -> & ->)%ctor_done_inv.
  split.
  - intros q Hq. cbn [heap controllerOutPacket ctor_handle] in *.
    by apply lookup_insert_ne.
  - destruct w as [hp tr]. cbn [heap trace]. by rewrite events_since_done.
Qed.

Lemma X3_ctor_frame_witness :
  ∃ h w', DualShock4_ctor host64 (Some pad_usb) boot = Done h w' ∧
    events_since boot (Done h w') = [HidOpen 1356 2508 [] 77; Calloc 1 32 4096].
Proof.
  eexists _, _. split; [vm_compute; reflexivity |].
  eapply (X3_ctor_frame host64 pad_usb boot). vm_compute; reflexivity.
Defined.

(** X4. The usage member of the descriptor has no effect on
    construction: two descriptors with the same vendor id, product id and
    serial number give the same outcome, the same handle, the same heap
    and the same events, whatever their usage values. *)
Theorem X4_usage_is_ignored E info info' w :
  vendor_id info = vendor_id info' →
  product_id info = product_id info' →
  serial_number info = serial_number info' →
  DualShock4_ctor E (Some info) w = DualShock4_ctor E (Some info') w.
Proof.
  intros Hv Hp Hs.
  destruct (decide (product_id info = DUALSHOCK_4_CONTROLLER_PRO_ID)) as [Hpid|Hpid].
  - destruct (decide (hid_open_ret E (vendor_id info) (product_id info)
                                   (serial_number info) = NULL)) as [Hdev|Hdev].
    + rewrite (ctor_open_fail E info), (ctor_open_fail E info'); try done.
      * by rewrite Hv, Hp, Hs.
      * congruence.
      * by rewrite <- Hv, <- Hp, <- Hs.
    + destruct (decide (calloc_ret E = NULL)) as [Hmem|Hmem].
      * rewrite (ctor_alloc_fail E info), (ctor_alloc_fail E info'); try done.
        -- by rewrite Hv, Hp, Hs.
        -- congruence.
        -- by rewrite <- Hv, <- Hp, <- Hs.
      * rewrite (ctor_run E info), (ctor_run E info'); try done.
        -- unfold ctor_handle, ctor_events. rewrite !fresh_packet_usb.
           destruct (decide (usage info = -1)) as [Hu|_];
             [by apply usage_not_minus_one in Hu |].
           destruct (decide (usage info' = -1)) as [Hu|_];
             [by apply usage_not_minus_one in Hu |].
           by rewrite Hv, Hp, Hs.
        -- congruence.
        -- by rewrite <- Hv, <- Hp, <- Hs.
  - rewrite (ctor_mismatch E info), (ctor_mismatch E info'); [done | congruence | done].
Qed.

Lemma X4_usage_is_ignored_witness :
  DualShock4_ctor host64 (Some pad_unset) boot
  = DualShock4_ctor host64 (Some pad_usb) boot.
Proof.
  apply (X4_usage_is_ignored host64 pad_unset pad_usb boot); reflexivity.
Defined.

(** X5. Construction followed by destruction is balanced. Whenever the
    constructor completes, the destructor completes too; together they
    open one device and close that same device once, allocate one block
    and free that same block once, in this order with one write in
    between, and the heap ends without the block: it is the heap of the
    start when the address was free there. *)
Theorem X5_scoped_is_balanced E info w h w1 :
  DualShock4_ctor E (Some info) w = Done h w1 →
  ∃ w2 sent,
    scoped E (Some info) w = Done tt w2 ∧
    heap w2 = delete (controllerOutPacket h) (heap w) ∧
    (heap w !! controllerOutPacket h = None → heap w2 = heap w) ∧
    filter is_call (events_since w (Done tt w2))
    = [HidOpen (vendor_id info) (product_id info) (serial_number info) (dev h);
       Calloc 1 sizeof_packet (controllerOutPacket h);
       sent;
       Free (controllerOutPacket h);
       HidClose (dev h)] ∧
    is_Some (transmitted sent).
Proof.
  intros Hctor. pose proof Hctor as Hinv. destruct w as [hp tr].
  apply ctor_done_inv in Hinv as (info' & [= <-] & Hpid & Hdev & Hmem & -> & ->).
  unfold scoped. rewrite bind_run, Hctor.
  erewrite dtor_run; [| by apply block_at_insert | apply fresh_packet_length].
  cbn [controllerOutPacket ctor_handle dev heap trace].
  eexists _, _. split; [reflexivity |].
  cbn [heap]. rewrite delete_insert_eq.
  split; [done |]. split; [apply delete_id |].
  rewrite <- app_assoc, events_since_done.
  unfold ctor_events, dtor_events. cbn [dev controllerOutPacket ctor_handle].
  destruct (decide (_ ≠ NULL)) as [_|]; [| done].
  split; [reflexivity | done].
Qed.

Lemma X5_scoped_is_balanced_witness :
  ∃ w2 sent,
    scoped host64 (Some pad_usb) boot = Done tt w2 ∧
    heap w2 = delete (controllerOutPacket (ctor_handle host64 pad_usb)) (heap boot) ∧
    (heap boot !! controllerOutPacket (ctor_handle host64 pad_usb) = None →
     heap w2 = heap boot) ∧
    filter is_call (events_since boot (Done tt w2))
    = [HidOpen (vendor_id pad_usb) (product_id pad_usb) (serial_number pad_usb)
         (dev (ctor_handle host64 pad_usb));
       Calloc 1 sizeof_packet (controllerOutPacket (ctor_handle host64 pad_usb));
       sent;
       Free (controllerOutPacket (ctor_handle host64 pad_usb));
       HidClose (dev (ctor_handle host64 pad_usb))] ∧
    is_Some (transmitted sent).
Proof.
  apply (X5_scoped_is_balanced host64 pad_usb boot (ctor_handle host64 pad_usb)
           (World (<[4096 := fresh_packet pad_usb]> ∅)
                  (ctor_events host64 pad_usb))).
  vm_compute; reflexivity.
Defined.

(** X6. Destroying a handle twice is a use after free: the first
    destructor frees the packet, so the first statement of a second one
    on the same handle writes the marker through a dangling pointer.
    From there the behaviour of the program is undefined, and the model
    says nothing of what follows. *)
Theorem X6_second_destruction_is_undefined E h w w1 :
  live w h →
  DualShock4_dtor E h w = Done tt w1 →
  packet w1 h = None ∧
  controllerOutPacket h ≠ NULL ∧
  DualShock4_dtor E h w1 = Undefined w1.
Proof.
  intros Hlive Hrun.
  destruct (dtor_live E h w Hlive) as (b & Hb & _ & Hrun').
  rewrite Hrun' in Hrun. simplify_eq.
  apply block_at_Some in Hb as [Hn _].
  assert (block_at (delete (controllerOutPacket h) (heap w))
            (controllerOutPacket h) = None) as Hgone.
  { unfold block_at. destruct (decide (controllerOutPacket h = NULL)); [done |].
    apply lookup_delete_eq. }
  split; [exact Hgone |]. split; [done |].
  unfold DualShock4_dtor. rewrite bind_run. unfold store. cbn [heap].
  destruct (decide (controllerOutPacket h = NULL)); [done |].
  by rewrite Hgone.
Qed.

Lemma X6_second_destruction_is_undefined_witness :
  ∃ h w w1, DualShock4_ctor host64 (Some pad_usb) boot = Done h w ∧
    DualShock4_dtor host64 h w = Done tt w1 ∧
    DualShock4_dtor host64 h w1 = Undefined w1.
Proof.
  eexists _, _, _. split; [vm_compute; reflexivity |].
  split; [vm_compute; reflexivity |].
  eapply (X6_second_destruction_is_undefined host64 _
            (World (<[4096 := fresh_packet pad_usb]> ∅)
                   (ctor_events host64 pad_usb))).
  - split; [vm_compute; congruence |].
    eexists. split; vm_compute; reflexivity.
  - vm_compute; reflexivity.
Defined.

(** X7. Short as it is, the write of the destructor always carries the
    report id and the reset marker: on both platforms the bytes sent are
    the first 4 or 8 bytes of the packet, the first is the report id the
    packet had and the third is 0x01. *)
Theorem X7_teardown_write_carries_marker E h w b :
  live w h →
  packet w h = Some b →
  ∃ sent,
    omap transmitted (events_since w (DualShock4_dtor E h w)) = [sent] ∧
    sent = take (sizeof_pointer (platform E)) (<[off reserved_unk := 0x01]> b) ∧
    sent !! off_reportId = b !! off_reportId ∧
    sent !! off reserved_unk = Some 0x01.
Proof.
  intros Hlive Hb.
  destruct (dtor_live E h w Hlive) as (b' & Hb' & Hlen & ->).
  assert (b' = b) as -> by congruence.
  destruct w as [hp tr]. rewrite events_since_done.
  unfold dtor_events. cbn [heap trace].
  eexists. split; [by destruct (decide (dev h ≠ NULL)) |].
  split; [done |].
  clear Hb Hb' Hlive. explode b Hlen.
  by destruct (platform E).
Qed.

Lemma X7_teardown_write_carries_marker_witness :
  ∃ h w b, DualShock4_ctor host64 (Some pad_usb) boot = Done h w ∧
    packet w h = Some b ∧
    ∃ sent,
      omap transmitted (events_since w (DualShock4_dtor host64 h w)) = [sent] ∧
      sent = take 8 (<[off reserved_unk := 0x01]> b) ∧
      sent !! off_reportId = b !! off_reportId ∧
      sent !! off reserved_unk = Some 0x01.
Proof.
  exists (ctor_handle host64 pad_usb),
         (World (<[4096 := fresh_packet pad_usb]> ∅)
                (ctor_events host64 pad_usb)),
         (fresh_packet pad_usb).
  split; [vm_compute; reflexivity |].
  split; [vm_compute; reflexivity |].
  apply (X7_teardown_write_carries_marker host64).
  - split; [vm_compute; congruence |].
    eexists. split; vm_compute; reflexivity.
  - vm_compute; reflexivity.
Defined.





(** * The console: trimming *)

Section TrimFacts.
Import Console.

Lemma trim_front_split line :
  ∃ ws, line = ws ++ trim_front line ∧ Forall (λ c, isspace c = true) ws.
Proof.
  induction line as [|c line (ws & Hl & Hws)]; [by exists [] |].
  cbn [trim_front]. destruct (isspace c) eqn:Hc.
  - exists (c :: ws). split; [by rewrite Hl at 1 | by constructor].
  - by exists [].
Qed.

Lemma trim_front_head line c :
  head (trim_front line) = Some c → isspace c = false.
Proof.
  induction line as [|c' line IH]; [done |].
  cbn [trim_front]. destruct (isspace c') eqn:Hc; [done |].
  intros [= ->]. done.
Qed.

Lemma last_removelast (l : list ascii) c :
  last l = Some c → l = removelast l ++ [c].
Proof.
  intros [l' ->]%last_Some. by rewrite removelast_last.
Qed.

Lemma pop_spaces_split n line :
  ∃ ws, line = pop_spaces n line ++ ws ∧ Forall (λ c, isspace c = true) ws.
Proof.
  revert line. induction n as [|n IH]; intros line.
  - exists []. by rewrite app_nil_r.
  - cbn [pop_spaces]. destruct (last line) as [c|] eqn:Hlast;
      [| exists []; by rewrite app_nil_r].
    destruct (isspace c) eqn:Hc; [| exists []; by rewrite app_nil_r].
    destruct (IH (removelast line)) as (ws & Hl & Hws).
    exists (ws ++ [c]). split.
    + rewrite app_assoc, <- Hl. by apply last_removelast.
    + apply Forall_app. split; [done | by constructor].
Qed.

(** The bound is enough: the loop has met its exit condition. *)
Lemma pop_spaces_last n line c :
  (length line ≤ n)%nat →
  last (pop_spaces n line) = Some c → isspace c = false.
Proof.
  revert line. induction n as [|n IH]; intros line Hlen.
  - destruct line; [done | cbn in Hlen; lia].
  - cbn [pop_spaces]. destruct (last line) as [c'|] eqn:Hlast.
    + destruct (isspace c') eqn:Hc'.
      * apply IH. apply last_removelast in Hlast.
        rewrite Hlast, length_app in Hlen. cbn in Hlen. lia.
      * rewrite Hlast. by intros [= <-].
    + by rewrite Hlast.
Qed.

Lemma trim_front_fixed line :
  (∀ c, head line = Some c → isspace c = false) → trim_front line = line.
Proof.
  destruct line as [|c line]; [done |]. intros Hh.
  cbn [trim_front]. by rewrite (Hh c).
Qed.

Lemma pop_spaces_fixed n line :
  (∀ c, last line = Some c → isspace c = false) → pop_spaces n line = line.
Proof.
  intros Hl. destruct n as [|n]; [done |]. cbn [pop_spaces].
  destruct (last line) as [c|]; [| done]. by rewrite (Hl c).
Qed.

Lemma trim_split line :
  ∃ ws1 ws2, line = ws1 ++ trim line ++ ws2 ∧
    Forall (λ c, isspace c = true) ws1 ∧ Forall (λ c, isspace c = true) ws2.
Proof.
  destruct (trim_front_split line) as (ws1 & Hl1 & Hws1).
  destruct (pop_spaces_split (length (trim_front line)) (trim_front line))
    as (ws2 & Hl2 & Hws2).
  exists ws1, ws2. unfold trim, trim_back. by rewrite <- Hl2.
Qed.

Lemma trim_head line c : head (trim line) = Some c → isspace c = false.
Proof.
  intros Hh. apply (trim_front_head line).
  destruct (pop_spaces_split (length (trim_front line)) (trim_front line))
    as (ws2 & Hl2 & _).
  rewrite Hl2. fold (trim_back (trim_front line)). fold (trim line).
  by rewrite head_app, Hh.
Qed.

Lemma trim_last line c : last (trim line) = Some c → isspace c = false.
Proof. unfold trim, trim_back. by apply pop_spaces_last. Qed.

Lemma trim_trim line : trim (trim line) = trim line.
Proof.
  unfold trim at 1. rewrite trim_front_fixed by apply trim_head.
  apply pop_spaces_fixed, trim_last.
Qed.

Lemma trim_blank line :
  trim line = [] ↔ Forall (λ c, isspace c = true) line.
Proof.
  split.
  - intros Ht. destruct (trim_split line) as (ws1 & ws2 & Hl & H1 & H2).
    rewrite Hl, Ht. by apply Forall_app.
  - intros Hall. assert (trim_front line = []) as Hf.
    { induction Hall as [|c l Hc _ IH]; [done |].
      cbn [trim_front]. by rewrite Hc. }
    unfold trim. by rewrite Hf.
Qed.

End TrimFacts.

(** X10. Trimming removes whitespace at the two ends and nothing else:
    the line is whitespace, then the trimmed line, then whitespace, and
    the trimmed line neither starts nor ends with a whitespace character
    (so both loops stop within the length of the line). *)
Theorem X10_trim_strips_both_ends (line : list ascii) :
  ∃ ws1 ws2,
    line = ws1 ++ Console.trim line ++ ws2 ∧
    Forall (λ c, Console.isspace c = true) ws1 ∧
    Forall (λ c, Console.isspace c = true) ws2 ∧
    (∀ c, head (Console.trim line) = Some c → Console.isspace c = false) ∧
    (∀ c, last (Console.trim line) = Some c → Console.isspace c = false).
Proof.
  destruct (trim_split line) as (ws1 & ws2 & Hl & H1 & H2).
  exists ws1, ws2. repeat split; try done.
  - apply trim_head.
  - apply trim_last.
Qed.

(** X11. Trimming twice is trimming once, and a line trims to the empty
    line exactly when all its characters are whitespace. *)
Theorem X11_trim_idempotent_and_blank (line : list ascii) :
  Console.trim (Console.trim line) = Console.trim line ∧
  (Console.trim line = [] ↔ Forall (λ c, Console.isspace c = true) line).
Proof. split; [apply trim_trim | apply trim_blank]. Qed.

(** X12. On a trimmed line the length test of the [fen] command is
    implied by the prefix test: a trimmed line that starts with the four
    characters of the command is longer than four characters, the FEN
    text handed to the library is not empty and does not end with
    whitespace. *)
Theorem X12_fen_prefix_implies_length (line0 : list ascii) :
  take 4 (Console.trim line0) = Console.lit "fen " →
  Console.is_fen_command (Console.trim line0) = true ∧
  drop 4 (Console.trim line0) ≠ [] ∧
  (∀ c, last (drop 4 (Console.trim line0)) = Some c → Console.isspace c = false).
Proof.
  intros Hpre.
  assert (4 < length (Console.trim line0))%nat as Hlen.
  { destruct (decide (4 < length (Console.trim line0))%nat) as [|Hle]; [done |].
    exfalso.
    assert (Console.trim line0 = Console.lit "fen ") as Heq.
    { rewrite <- Hpre. symmetry. apply take_ge. lia. }
    pose proof (trim_last line0 " "%char) as Hl. rewrite Heq in Hl.
    by specialize (Hl eq_refl). }
  split; [| split].
  - unfold Console.is_fen_command. rewrite Hpre.
    rewrite bool_decide_eq_true_2 by done. by apply bool_decide_eq_true_2.
  - intros Hd. apply (f_equal length) in Hd. rewrite length_drop in Hd.
    cbn in Hd. lia.
  - intros c Hc. apply (trim_last line0).
    rewrite <- (take_drop 4 (Console.trim line0)), last_app, Hc. done.
Qed.

Lemma X12_fen_prefix_implies_length_witness :
  Console.is_fen_command (Console.trim (Console.lit "  fen 8/8/8 w  ")) = true.
Proof.
  apply (X12_fen_prefix_implies_length (Console.lit "  fen 8/8/8 w  ")).
  vm_compute; reflexivity.
Defined.

(** * The console: the loop *)

Section ConsoleFacts.
Import Console.
Context {chess : Chess}.

Lemma is_legal_in_elem_of ms (m : Move) :
  is_legal_in ms m = true ↔ m ∈ ms.
Proof.
  induction ms as [|m' ms IH]; cbn [is_legal_in].
  - split; [done | by intros ?%elem_of_nil].
  - destruct (decide (m' = m)) as [->|Hne].
    + split; [intros _; apply list_elem_of_here | done].
    + rewrite IH. split; [apply list_elem_of_further |].
      intros [?|?]%elem_of_cons; [congruence | done].
Qed.

(** The branches of the loop body, one lemma each. *)
Lemma handle_blank st line0 :
  trim line0 = [] → handle st line0 = (Continue, st, []).
Proof. intros Ht. unfold handle. rewrite Ht. by case_decide. Qed.

Lemma handle_quit st line0 :
  trim line0 = lit "quit" ∨ trim line0 = lit "exit" →
  handle st line0 = (Break, st, [Put "Goodbye."; Endl]).
Proof.
  intros Ht. unfold handle.
  destruct (decide (trim line0 = [])) as [He|_];
    [by destruct Ht as [Ht|Ht]; rewrite He in Ht |].
  by destruct (decide (trim line0 = lit "quit" ∨ trim line0 = lit "exit")).
Qed.

Lemma handle_undo st line0 :
  trim line0 = lit "undo" →
  handle st line0
  = match last (history st) with
    | Some m => (Continue,
                 {| board := unmakeMove (board st) m;
                    history := removelast (history st) |}, [])
    | None => (Continue, st, [Put "No moves to undo."; Endl])
    end.
Proof.
  intros Ht. unfold handle. rewrite Ht.
  destruct (decide (lit "undo" = [])) as [|_]; [done |].
  destruct (decide (lit "undo" = lit "quit" ∨ lit "undo" = lit "exit"))
    as [[|]|_]; [done.. |].
  by destruct (decide (lit "undo" = lit "undo")).
Qed.

(** Every round of the loop body falls in one of four classes. *)
Lemma handle_cases st line0 n st' o :
  handle st line0 = (n, st', o) →
  (st' = st ∧
   (n = Break → trim line0 = lit "quit" ∨ trim line0 = lit "exit")) ∨
  (n = Continue ∧ trim line0 = lit "undo" ∧
   ∃ m, last (history st) = Some m ∧
        st' = {| board := unmakeMove (board st) m;
                 history := removelast (history st) |}) ∨
  (n = Continue ∧
   ∃ ok b', setFen (board st) (drop 4 (trim line0)) = (ok, b') ∧
        st' = {| board := b'; history := if ok then [] else history st |}) ∨
  (∃ m, m ∈ legalmoves (board st) ∧ m ≠ NO_MOVE ∧
        st' = {| board := makeMove (board st) m;
                 history := history st ++ [m] |} ∧
        (n = Break ↔ (isGameOver (makeMove (board st) m)).2 ≠ NONE)).
Proof.
  unfold handle.
  destruct (decide (trim line0 = [])); [intros [= <- <- <-]; by left |].
  destruct (decide (trim line0 = lit "quit" ∨ trim line0 = lit "exit"));
    [intros [= <- <- <-]; by left |].
  destruct (decide (trim line0 = lit "undo")).
  { destruct (last (history st)) as [m|] eqn:Hlast; intros [= <- <- <-];
      [right; left; repeat split; try done; by exists m | by left]. }
  destruct (is_fen_command (trim line0)).
  { destruct (setFen (board st) (drop 4 (trim line0))) as [ok b'] eqn:Hfen.
    destruct ok; intros [= <- <- <-]; right; right; left;
      (split; [done |]); by eexists _, _. }
  destruct (decide (parse_move (board st) (trim line0) = NO_MOVE));
    [intros [= <- <- <-]; by left |].
  destruct (is_legal_in _ _) eqn:Hlegal; cbn [negb];
    [| intros [= <- <- <-]; by left].
  apply is_legal_in_elem_of in Hlegal.
  destruct (isGameOver _) as [reason result] eqn:Hover.
  destruct (decide (result ≠ NONE)); intros [= <- <- <-];
    right; right; right; eexists; (repeat split; try done);
    rewrite Hover; cbn; try done.
Qed.

End ConsoleFacts.

Section ConsoleProperties.
Import Console.
Context {chess : Chess}.

(** X13. The loop body sees a line only through its trimmed form, so
    whitespace around a command or a move changes nothing; a line of
    whitespace alone (the empty line too) leaves board and history alone
    and prints nothing, and the loop goes on with the next line after
    one more prompt. *)
Theorem X13_whitespace_is_ignored st line0 :
  handle st line0 = handle st (trim line0) ∧
  (Forall (λ c, isspace c = true) line0 →
   handle st line0 = (Continue, st, []) ∧
   ∀ rest, loop st (line0 :: rest)
           = let '(final, o, unread) := loop st rest in
             (final, prompt st ++ o, unread)).
Proof.
  split.
  - unfold handle. by rewrite trim_trim.
  - intros Hblank%trim_blank. split; [by apply handle_blank |].
    intros rest. cbn [loop]. rewrite handle_blank by done.
    by destruct (loop st rest) as [[final o] unread].
Qed.

(** X14. The words [quit] and [exit], with any whitespace around them,
    end the loop at once: the state is the one before the line, the only
    output after the prompt is the farewell, and the lines that follow
    are left unread. *)
Theorem X14_quit_stops_reading st line0 rest :
  trim line0 = lit "quit" ∨ trim line0 = lit "exit" →
  loop st (line0 :: rest)
  = (st, prompt st ++ [Put "Goodbye."; Endl], rest).
Proof. intros Ht. cbn [loop]. by rewrite handle_quit. Qed.

(** X15. One round of the loop changes the state in one of three ways
    or not at all: it takes back the last move of the history with
    [unmakeMove], it takes the board [setFen] leaves (clearing the
    history when that succeeds), or it makes a move that is not
    [NO_MOVE] and is among the legal moves of the board, and appends it
    to the history. A move that is not legal is never made. *)
Theorem X15_state_changes st line0 n st' o :
  handle st line0 = (n, st', o) →
  st' = st ∨
  (∃ m, last (history st) = Some m ∧
        st' = {| board := unmakeMove (board st) m;
                 history := removelast (history st) |}) ∨
  (∃ fen ok b', setFen (board st) fen = (ok, b') ∧
        st' = {| board := b'; history := if ok then [] else history st |}) ∨
  (∃ m, m ∈ legalmoves (board st) ∧ m ≠ NO_MOVE ∧
        st' = {| board := makeMove (board st) m;
                 history := history st ++ [m] |}).
Proof.
  intros [[-> _]|[(_ & _ & m & Hlast & ->)|[(_ & ok & b' & Hfen & ->)|
           (m & Hm & Hno & -> & _)]]]%handle_cases.
  - by left.
  - right; left. by exists m.
  - right; right; left. by eexists _, _, _.
  - right; right; right. by exists m.
Qed.


Section WithLibraryLaws.
(** What the console relies on to keep board and history together:
    [unmakeMove] takes back what [makeMove] did, and a [setFen] that
    fails leaves the board as it was. *)
Hypothesis unmake_make : ∀ b m, unmakeMove (makeMove b m) m = b.
Hypothesis setFen_failed : ∀ b fen b', setFen b fen = (false, b') → b' = b.

Lemma handle_in_step st line0 n st' o :
  in_step st → handle st line0 = (n, st', o) → in_step st'.
Proof.
  intros [base Hbase]
    [[-> _]|[(_ & _ & m & Hlast & ->)|[(_ & ok & b' & Hfen & ->)|
           (m & _ & _ & -> & _)]]]%handle_cases.
  - by exists base.
  - apply last_Some in Hlast as [h' Hh]. exists base. cbn [board history].
    rewrite Hbase, Hh, removelast_last, foldl_snoc. apply unmake_make.
  - destruct ok; [by exists b' |].
    exists base. cbn [board history]. by rewrite (setFen_failed _ _ _ Hfen).
  - exists base. cbn [board history]. by rewrite foldl_snoc, Hbase.
Qed.

Lemma loop_in_step input st :
  in_step st → in_step (loop st input).1.1.
Proof.
  revert st. induction input as [|line rest IH]; intros st Hst; [done |].
  cbn [loop]. destruct (handle st line) as [[n st'] o] eqn:Hh.
  pose proof (handle_in_step _ _ _ _ _ Hst Hh) as Hst'.
  destruct n.
  - specialize (IH st' Hst').
    by destruct (loop st' rest) as [[final o'] unread].
  - done.
Qed.

(** X17. If the library's [unmakeMove] takes back its [makeMove] and a
    failed [setFen] leaves the board alone, then whatever is typed, the
    board the console ends with is its history replayed, move by move,
    on some position: the undo stack and the board never drift apart. *)
Theorem X17_board_follows_history input :
  in_step (RunChessConsole input).1.1.
Proof.
  unfold RunChessConsole.
  pose proof (loop_in_step input (Console start_position [])) as Hloop.
  destruct (loop _ input) as [[final o] unread].
  apply Hloop. by exists start_position.
Qed.

(** X18. If the library's [unmakeMove] takes back its [makeMove], then
    [undo] right after a round that has made a move restores the board
    and the history the move was made on, and prints nothing. *)
Theorem X18_undo_reverts_move st line0 n st' o m :
  handle st line0 = (n, st', o) →
  history st' = history st ++ [m] →
  handle st' (lit "undo") = (Continue, st, []).
Proof.
  intros [[-> _]|[(_ & _ & m' & Hlast & ->)|[(_ & ok & b' & Hfen & ->)|
           (m' & _ & _ & -> & _)]]]%handle_cases Hh; cbn [history] in Hh.
  - apply (f_equal length) in Hh. rewrite length_app in Hh. cbn in Hh. lia.
  - apply last_Some in Hlast as [h' Hlast]. rewrite Hlast, removelast_last in Hh.
    apply (f_equal length) in Hh. rewrite !length_app in Hh. cbn in Hh. lia.
  - destruct ok.
    + by destruct (history st).
    + apply (f_equal length) in Hh. rewrite length_app in Hh. cbn in Hh. lia.
  - apply app_inj_tail in Hh as [_ <-].
    rewrite handle_undo by done. cbn [history board].
    rewrite last_snoc, removelast_last, unmake_make. by destruct st.
Qed.

End WithLibraryLaws.

End ConsoleProperties.

(** ** The console on the toy library *)

Lemma X13_whitespace_is_ignored_witness :
  @Console.handle Console.toy (Console.toy_console [] []) (Console.lit "  e4 ")
  = @Console.handle Console.toy (Console.toy_console [] [])
      (Console.trim (Console.lit "  e4 ")).
Proof.
  apply (@X13_whitespace_is_ignored Console.toy).
Defined.

Lemma X14_quit_stops_reading_witness :
  @Console.loop Console.toy (Console.toy_console [] [])
    [Console.lit " quit "; Console.lit "e4"]
  = (Console.toy_console [] [],
     Console.prompt (Console.toy_console [] [])
     ++ [Console.Put "Goodbye."; Console.Endl],
     [Console.lit "e4"]).
Proof.
  apply (@X14_quit_stops_reading Console.toy).
  left. vm_compute; reflexivity.
Defined.

Lemma X15_state_changes_witness :
  let st := Console.toy_console [] [] in
  let st' := Console.toy_console [1%nat] [1%nat] in
  st' = st ∨
  (∃ m, last (Console.history st) = Some m ∧
        st' = {| Console.board := Console.unmakeMove (Console.board st) m;
                 Console.history := removelast (Console.history st) |}) ∨
  (∃ fen ok b', Console.setFen (Console.board st) fen = (ok, b') ∧
        st' = {| Console.board := b';
                 Console.history := if ok then [] else Console.history st |}) ∨
  (∃ m, m ∈ Console.legalmoves (Console.board st) ∧ m ≠ Console.NO_MOVE ∧
        st' = {| Console.board := Console.makeMove (Console.board st) m;
                 Console.history := Console.history st ++ [m] |}).
Proof.
  intros st st'.
  apply (@X15_state_changes Console.toy st (Console.lit "e4") Console.Continue st'
           [Console.Put "Played: "; Console.Put "san"; Console.Endl]).
  vm_compute; reflexivity.
Defined.


Lemma X17_board_follows_history_witness :
  @Console.in_step Console.toy
    (@Console.RunChessConsole Console.toy
       [Console.lit "e4"; Console.lit "aaxx"; Console.lit "undo";
        Console.lit "fen nowhere"; Console.lit "axxx"]).1.1.
Proof.
  apply (@X17_board_follows_history Console.toy).
  - intros b m. reflexivity.
  - intros b fen b'. cbn. destruct (decide _); intros [=]; done.
Defined.

Lemma X18_undo_reverts_move_witness :
  @Console.handle Console.toy (Console.toy_console [1%nat] [1%nat]) (Console.lit "undo")
  = (Console.Continue, Console.toy_console [] [], []).
Proof.
  apply (@X18_undo_reverts_move Console.toy (λ b m, eq_refl)
           (Console.toy_console [] []) (Console.lit "e4") Console.Continue
           (Console.toy_console [1%nat] [1%nat])
           [Console.Put "Played: "; Console.Put "san"; Console.Endl] 1%nat).
  - vm_compute; reflexivity.
  - reflexivity.
Defined.
